(** * MemeGen AI: the session state, its handlers and the canvas render effect

    A shallow embedding of the [App] component (App.tsx, shipped in
    src/types.ts after the type declarations).

    Numbers.  Every JavaScript number of the component that is an integer
    (image and canvas dimensions, [fontSize], [lineWidth], loop indices) is a
    [Z]; the ones that may be fractional (text widths, [width / 2], the line
    offsets [i * fontSize * 1.1]) are rationals [Q].  Where the code rounds,
    so does the model: [1.1] is the double nearest to 11/10, and the product
    and the sum of a line offset are rounded to the nearest double.  The
    quotient handed to [Math.round] is [a / b] for integers of the size of an
    image dimension: it either is a half-integer, which a double holds
    exactly, or lies at least [1 / (2 b)] away from one, far more than a
    double's rounding error, so the rational quotient rounds as the double
    does; [width / 2], [width / 10] and [fontSize / 8] are exact or far from
    an integer in the same way.

    Strings are [string]; [toUpperCase] is modelled on ASCII letters.

    The browser is outside the repository: the text measurement of the 2D
    context is a parameter of the development, and the canvas is a record of
    its dimensions, its drawing state and the calls painted on it since it
    was last cleared. *)

From Stdlib Require Import ZArith QArith Qround Qpower Bool List Lia Lqa.
From Stdlib Require Import Ascii String DecimalString.
Import ListNotations.

Local Open Scope Z_scope.
Local Open Scope string_scope.

(* ================================================================== *)
(** ** JavaScript primitives used by the component *)
(* ================================================================== *)

(** A string is truthy when it is not empty. *)
Definition truthy (s : string) : bool := negb (s =? "").

(** [a || b] on strings. *)
Definition or_else (a b : string) : string := if truthy a then a else b.

(** [`${n}`] for an integer. *)
Definition Z_to_string (n : Z) : string := NilZero.string_of_int (Z.to_int n).

Definition LF : string := String (ascii_of_nat 10) "".

(** [s.split(sep)] for a one-character separator: never empty, [""] gives
    [[""]], and adjacent separators give empty words. *)
Fixpoint split (sep : ascii) (s : string) : list string :=
  match s with
  | EmptyString => [EmptyString]
  | String c s' =>
      if Ascii.eqb c sep then EmptyString :: split sep s'
      else match split sep s' with
           | [] => [String c EmptyString]
           | w :: ws => String c w :: ws
           end
  end.

Definition upper_ascii (c : ascii) : ascii :=
  let n := nat_of_ascii c in
  if (97 <=? n)%nat && (n <=? 122)%nat then ascii_of_nat (n - 32) else c.

(** [s.toUpperCase()], on ASCII letters. *)
Fixpoint toUpperCase (s : string) : string :=
  match s with
  | EmptyString => EmptyString
  | String c s' => String (upper_ascii c) (toUpperCase s')
  end.

(** [Math.floor] and [Math.round] (halves go up). *)
Definition Math_floor (q : Q) : Z := Qfloor q.
Definition Math_round (q : Q) : Z := Qfloor (q + (1 # 2)).

(** [a / b] on two integers. *)
Definition num_div (a b : Z) : Q := (inject_Z a / inject_Z b)%Q.

(** [a > b] on numbers. *)
Definition num_gt (a b : Q) : bool := negb (Qle_bool a b).

(** The nearest integer, a half going to the even one. *)
Definition round_half_even (q : Q) : Z :=
  let f := Qfloor q in
  match Qcompare (q - inject_Z f) (1 # 2) with
  | Lt => f
  | Gt => f + 1
  | Eq => if Z.even f then f else f + 1
  end.

(** [floor (log2 a)] for a positive [a]: the difference of the binary
    lengths of numerator and denominator, or one less. *)
Definition ilog2 (a : Q) : Z :=
  let e := Z.log2 (Qnum a) - Z.log2 (Zpos (Qden a)) in
  if Qle_bool (2 ^ e) a then e else e - 1.

(** The multiple of [2 ^ e] nearest to [q], ties to even. *)
Definition round_to (e : Z) (q : Q) : Q :=
  (inject_Z (round_half_even (q / 2 ^ e)) * 2 ^ e)%Q.

(** The double nearest to [q], ties to even: 53 significant bits.  (The
    numbers of a canvas are far from the overflow and the subnormal range,
    which are not modelled.) *)
Definition to_double (q : Q) : Q :=
  match Qcompare q 0 with
  | Eq => 0%Q
  | Gt => round_to (ilog2 q - 52) q
  | Lt => (- round_to (ilog2 (- q) - 52) (- q))%Q
  end.

(** The literal [1.1]: the double [0x1.199999999999ap+0]. *)
Definition double_1_1 : Q := 2476979795053773 # 2251799813685248.

(* ================================================================== *)
(** ** types.ts *)
(* ================================================================== *)

Inductive AppMode := CAPTION | EDIT | ANALYZE.

Definition AppMode_eqb (a b : AppMode) : bool :=
  match a, b with
  | CAPTION, CAPTION | EDIT, EDIT | ANALYZE, ANALYZE => true
  | _, _ => false
  end.

Inductive Category := Funny | Sarcastic | Relatable | Dark | Wholesome.

Record CaptionSuggestion := { text : string; category : Category }.

Record AnalysisResult := { description : string; tags : list string }.

(* ================================================================== *)
(** ** The component's state: one field per [useState] slot *)
(* ================================================================== *)

Record AppState := mkApp {
  mode : AppMode;
  imageSrc : option string;
  isLoading : bool;
  error : option string;
  captions : list CaptionSuggestion;
  selectedCaption : string;
  topText : string;
  bottomText : string;
  editPrompt : string;
  analysis : option AnalysisResult
}.

Definition initialState : AppState :=
  mkApp CAPTION None false None [] "" "" "" "" None.

Definition setMode v s :=
  mkApp v (imageSrc s) (isLoading s) (error s) (captions s)
        (selectedCaption s) (topText s) (bottomText s) (editPrompt s) (analysis s).
Definition setImageSrc v s :=
  mkApp (mode s) v (isLoading s) (error s) (captions s)
        (selectedCaption s) (topText s) (bottomText s) (editPrompt s) (analysis s).
Definition setIsLoading v s :=
  mkApp (mode s) (imageSrc s) v (error s) (captions s)
        (selectedCaption s) (topText s) (bottomText s) (editPrompt s) (analysis s).
Definition setError v s :=
  mkApp (mode s) (imageSrc s) (isLoading s) v (captions s)
        (selectedCaption s) (topText s) (bottomText s) (editPrompt s) (analysis s).
Definition setCaptions v s :=
  mkApp (mode s) (imageSrc s) (isLoading s) (error s) v
        (selectedCaption s) (topText s) (bottomText s) (editPrompt s) (analysis s).
Definition setSelectedCaption v s :=
  mkApp (mode s) (imageSrc s) (isLoading s) (error s) (captions s)
        v (topText s) (bottomText s) (editPrompt s) (analysis s).
Definition setTopText v s :=
  mkApp (mode s) (imageSrc s) (isLoading s) (error s) (captions s)
        (selectedCaption s) v (bottomText s) (editPrompt s) (analysis s).
Definition setBottomText v s :=
  mkApp (mode s) (imageSrc s) (isLoading s) (error s) (captions s)
        (selectedCaption s) (topText s) v (editPrompt s) (analysis s).
Definition setEditPrompt v s :=
  mkApp (mode s) (imageSrc s) (isLoading s) (error s) (captions s)
        (selectedCaption s) (topText s) (bottomText s) v (analysis s).
Definition setAnalysis v s :=
  mkApp (mode s) (imageSrc s) (isLoading s) (error s) (captions s)
        (selectedCaption s) (topText s) (bottomText s) (editPrompt s) v.

(** [!imageSrc]: null or the empty string. *)
Definition has_image (s : AppState) : bool :=
  match imageSrc s with
  | Some src => truthy src
  | None => false
  end.

(* ================================================================== *)
(** ** Image handling (App.tsx, "Image Handling") *)
(* ================================================================== *)

Definition resetState (s : AppState) : AppState :=
  setError None
    (setAnalysis None
      (setEditPrompt ""
        (setBottomText ""
          (setTopText ""
            (setSelectedCaption ""
              (setCaptions [] s)))))).

(** [reader.onload] of [handleFileUpload]; [result] is
    [event.target?.result]. *)
Definition handleFileUpload_onload (result : option string) (s : AppState)
  : AppState :=
  match result with
  | Some r => if truthy r then resetState (setImageSrc (Some r) s) else s
  | None => s
  end.

(** What an awaited promise settles to. *)
Inductive Settled (A : Type) :=
| Resolved (a : A)
| Rejected (message : option string).
Arguments Resolved {A} a.
Arguments Rejected {A} message.

(** [err.message || fallback]. *)
Definition message_or (message : option string) (fallback : string) : string :=
  match message with
  | Some m => or_else m fallback
  | None => fallback
  end.

(** [selectTemplate] up to its first [await]. *)
Definition selectTemplate_begin (s : AppState) : AppState := setIsLoading true s.

(** [reader.onloadend] of [selectTemplate]; [result] is [reader.result]. *)
Definition selectTemplate_onloadend (result : option string) (s : AppState)
  : AppState :=
  resetState (setIsLoading false (setImageSrc result s)).

(** The [catch] block of [selectTemplate]. *)
Definition selectTemplate_catch (s : AppState) : AppState :=
  setIsLoading false (setError (Some "Failed to load template") s).

(** [selectTemplate], with the outcome of fetching and reading the blob. *)
Definition selectTemplate (fetched : Settled (option string)) (s : AppState)
  : AppState :=
  let s := selectTemplate_begin s in
  match fetched with
  | Resolved result => selectTemplate_onloadend result s
  | Rejected _ => selectTemplate_catch s
  end.

(* ================================================================== *)
(** ** AI actions (App.tsx, "AI Actions") *)
(* ================================================================== *)

(** The two statements before [try]. *)
Definition ai_begin (s : AppState) : AppState :=
  setError None (setIsLoading true s).

(** [try { ok } catch (err) { setError(err.message || fallback) }
     finally { setIsLoading(false) }] once the awaited call has settled. *)
Definition try_catch_finally {A : Type} (ok : A -> AppState -> AppState)
    (fallback : string) (r : Settled A) (s : AppState) : AppState :=
  let s :=
    match r with
    | Resolved a => ok a s
    | Rejected message => setError (Some (message_or message fallback)) s
    end in
  setIsLoading false s.

Definition handleMagicCaption_settle :=
  try_catch_finally setCaptions "Failed to generate captions".

Definition handleMagicCaption (r : Settled (list CaptionSuggestion))
    (s : AppState) : AppState :=
  if negb (has_image s) then s
  else handleMagicCaption_settle r (ai_begin s).

Definition handleEditImage_settle :=
  try_catch_finally
    (fun newImageBase64 s => setEditPrompt "" (setImageSrc (Some newImageBase64) s))
    "Failed to edit image".

Definition handleEditImage (r : Settled string) (s : AppState) : AppState :=
  if negb (has_image s) || negb (truthy (editPrompt s)) then s
  else handleEditImage_settle r (ai_begin s).

Definition handleAnalyzeImage_settle :=
  try_catch_finally (fun result s => setAnalysis (Some result) s)
    "Failed to analyze image".

Definition handleAnalyzeImage (r : Settled AnalysisResult) (s : AppState)
  : AppState :=
  if negb (has_image s) then s
  else handleAnalyzeImage_settle r (ai_begin s).

(* ================================================================== *)
(** ** The handlers wired in the JSX *)
(* ================================================================== *)

(** [onClick] of a suggestion button. *)
Definition suggestion_onClick (cap : CaptionSuggestion) (s : AppState) : AppState :=
  setBottomText "" (setTopText "" (setSelectedCaption (text cap) s)).

(** [onChange] of the "Top Text" and "Bottom Text" inputs. *)
Definition topText_onChange (value : string) (s : AppState) : AppState :=
  setSelectedCaption "" (setTopText value s).
Definition bottomText_onChange (value : string) (s : AppState) : AppState :=
  setSelectedCaption "" (setBottomText value s).

(** Everything that can happen to the session: a user action, or an
    asynchronous call started earlier reaching its continuation. *)
Inductive Event :=
| TabClick (m : AppMode)
| SuggestionClick (cap : CaptionSuggestion)
| TopTextChange (value : string)
| BottomTextChange (value : string)
| EditPromptChange (value : string)
| StartOver
| FileRead (result : option string)
| TemplateClick
| TemplateRead (result : option string)
| TemplateFailed
| MagicCaptionClick
| MagicCaptionSettled (r : Settled (list CaptionSuggestion))
| EditImageClick
| EditImageSettled (r : Settled string)
| AnalyzeImageClick
| AnalyzeImageSettled (r : Settled AnalysisResult).

Definition step (s : AppState) (e : Event) : AppState :=
  match e with
  | TabClick m => setMode m s
  | SuggestionClick cap => suggestion_onClick cap s
  | TopTextChange v => topText_onChange v s
  | BottomTextChange v => bottomText_onChange v s
  | EditPromptChange v => setEditPrompt v s
  | StartOver => setImageSrc None s
  | FileRead result => handleFileUpload_onload result s
  | TemplateClick => selectTemplate_begin s
  | TemplateRead result => selectTemplate_onloadend result s
  | TemplateFailed => selectTemplate_catch s
  | MagicCaptionClick => if has_image s then ai_begin s else s
  | MagicCaptionSettled r => handleMagicCaption_settle r s
  | EditImageClick =>
      if has_image s && truthy (editPrompt s) then ai_begin s else s
  | EditImageSettled r => handleEditImage_settle r s
  | AnalyzeImageClick => if has_image s then ai_begin s else s
  | AnalyzeImageSettled r => handleAnalyzeImage_settle r s
  end.

Definition run (events : list Event) (s : AppState) : AppState :=
  fold_left step events s.

(* ================================================================== *)
(** ** The canvas *)
(* ================================================================== *)

Inductive CanvasTextAlign := AlignStart | AlignCenter.
Inductive CanvasTextBaseline := BaselineAlphabetic | BaselineTop | BaselineBottom.

(** The drawing state of the 2D context, as far as the component sets it. *)
Record Context2D := mkCtx {
  font : string;
  fillStyle : string;
  strokeStyle : string;
  lineWidth : Z;
  textAlign : CanvasTextAlign;
  textBaseline : CanvasTextBaseline
}.

(** The state of a context that has just been reset. *)
Definition defaultContext : Context2D :=
  mkCtx "10px sans-serif" "#000000" "#000000" 1 AlignStart BaselineAlphabetic.

(** A decoded image: its source and its natural dimensions. *)
Record Image := { img_src : string; img_width : Z; img_height : Z }.

(** A painting call, with the drawing state it was made in. *)
Inductive DrawCall :=
| DrawImage (img : Image) (dx dy dw dh : Z)
| StrokeText (st : Context2D) (txt : string) (x y : Q)
| FillText (st : Context2D) (txt : string) (x y : Q).

(** The canvas element: its dimensions, the state of its context and what
    has been painted on it since it was last cleared, oldest call first. *)
Record Canvas := mkCanvas {
  canvas_width : Z;
  canvas_height : Z;
  ctx : Context2D;
  painted : list DrawCall
}.

(** Code that draws: a state monad over the canvas. *)
Definition Draw (A : Type) : Type := Canvas -> A * Canvas.

Definition ret {A : Type} (a : A) : Draw A := fun c => (a, c).
Definition bind {A B : Type} (m : Draw A) (k : A -> Draw B) : Draw B :=
  fun c => let (a, c') := m c in k a c'.

Declare Scope draw_scope.
Delimit Scope draw_scope with draw.
Notation "m ;; k" := (bind m (fun _ => k))
  (at level 61, right associativity) : draw_scope.
Notation "x <- m ;; k" := (bind m (fun x => k))
  (at level 61, m at next level, right associativity) : draw_scope.

Definition exec {A : Type} (m : Draw A) (c : Canvas) : Canvas := snd (m c).

Definition get_ctx : Draw Context2D := fun c => (ctx c, c).
Definition modify_ctx (f : Context2D -> Context2D) : Draw unit :=
  fun c => (tt, mkCanvas (canvas_width c) (canvas_height c) (f (ctx c)) (painted c)).
Definition paint (call : Context2D -> DrawCall) : Draw unit :=
  fun c => (tt, mkCanvas (canvas_width c) (canvas_height c) (ctx c)
                         (painted c ++ [call (ctx c)])).

(** Assigning [canvas.width] or [canvas.height] clears the canvas and resets
    its context, also when the value does not change. *)
Definition set_canvas_width (w : Z) : Draw unit :=
  fun c => (tt, mkCanvas w (canvas_height c) defaultContext []).
Definition set_canvas_height (h : Z) : Draw unit :=
  fun c => (tt, mkCanvas (canvas_width c) h defaultContext []).

Definition set_font (v : string) : Draw unit :=
  modify_ctx (fun k => mkCtx v (fillStyle k) (strokeStyle k) (lineWidth k)
                             (textAlign k) (textBaseline k)).
Definition set_fillStyle (v : string) : Draw unit :=
  modify_ctx (fun k => mkCtx (font k) v (strokeStyle k) (lineWidth k)
                             (textAlign k) (textBaseline k)).
Definition set_strokeStyle (v : string) : Draw unit :=
  modify_ctx (fun k => mkCtx (font k) (fillStyle k) v (lineWidth k)
                             (textAlign k) (textBaseline k)).
(** A context ignores a line width that is not positive and keeps the one
    it has. *)
Definition set_lineWidth (v : Z) : Draw unit :=
  modify_ctx (fun k => mkCtx (font k) (fillStyle k) (strokeStyle k)
                             (if (0 <? v)%Z then v else lineWidth k)
                             (textAlign k) (textBaseline k)).
Definition set_textAlign (v : CanvasTextAlign) : Draw unit :=
  modify_ctx (fun k => mkCtx (font k) (fillStyle k) (strokeStyle k) (lineWidth k)
                             v (textBaseline k)).
Definition set_textBaseline (v : CanvasTextBaseline) : Draw unit :=
  modify_ctx (fun k => mkCtx (font k) (fillStyle k) (strokeStyle k) (lineWidth k)
                             (textAlign k) v).

Definition drawImage (img : Image) (dx dy dw dh : Z) : Draw unit :=
  paint (fun _ => DrawImage img dx dy dw dh).
Definition strokeText (txt : string) (x y : Q) : Draw unit :=
  paint (fun k => StrokeText k txt x y).
Definition fillText (txt : string) (x y : Q) : Draw unit :=
  paint (fun k => FillText k txt x y).

(** [arr.forEach((l, i) => body)], from index [i] on. *)
Fixpoint forEach_from {A : Type} (i : Z) (arr : list A)
    (body : A -> Z -> Draw unit) : Draw unit :=
  match arr with
  | [] => ret tt
  | l :: rest => (body l i ;; forEach_from (i + 1) rest body)%draw
  end.
Definition forEach {A : Type} := @forEach_from A 0.

(* ================================================================== *)
(** ** Drawing to canvas (App.tsx, the [useEffect] and its [img.onload]) *)
(* ================================================================== *)

Definition maxDim : Z := 600.

(** Lines 115-126: the canvas dimensions for an image of natural
    dimensions [width] x [height]. *)
Definition fit (width height : Z) : Z * Z :=
  if (width >? maxDim) || (height >? maxDim) then
    if width >? height then
      let height := Math_round (num_div (height * maxDim) width) in
      (maxDim, height)
    else
      let width := Math_round (num_div (width * maxDim) height) in
      (width, maxDim)
  else (width, height).

(** [`900 ${fontSize}px Impact, sans-serif`]. *)
Definition font_of (fontSize : Z) : string :=
  "900 " ++ Z_to_string fontSize ++ "px Impact, sans-serif".

Section Render.

(** [ctx.measureText(t).width], in the drawing state [k]. *)
Variable measureText : Context2D -> string -> Q.

(** Lines 166-176: the [for] loop from index [n] on, over the words still
    to place; the result is the [line] and the [lineArray] it ends with. *)
Fixpoint wrapLoop (k : Context2D) (width : Z) (words : list string) (n : nat)
    (line : string) (lineArray : list string) : string * list string :=
  match words with
  | [] => (line, lineArray)
  | word :: words' =>
      let testLine := line ++ word ++ " " in
      let testWidth := measureText k testLine in
      if num_gt testWidth (inject_Z (width - 40)) && (0 <? n)%nat then
        wrapLoop k width words' (S n) (word ++ " ") (lineArray ++ [line])%list
      else
        wrapLoop k width words' (S n) testLine lineArray
  end.

(** Lines 162-177: [lineArray] after the final [push]. *)
Definition wrapLines (k : Context2D) (width : Z) (caption : string)
  : list string :=
  let words := split " " caption in
  let (line, lineArray) := wrapLoop k width words 0 "" [] in
  (lineArray ++ [line])%list.

(** Lines 150-159: fixed positions for manually entered text. *)
Definition drawManual (s : AppState) (width height : Z) : Draw unit :=
  ((if truthy (topText s) then
      strokeText (toUpperCase (topText s)) (num_div width 2) (inject_Z 10) ;;
      fillText (toUpperCase (topText s)) (num_div width 2) (inject_Z 10)
    else ret tt) ;;
   (if truthy (bottomText s) then
      set_textBaseline BaselineBottom ;;
      strokeText (toUpperCase (bottomText s)) (num_div width 2)
                 (inject_Z (height - 10)) ;;
      fillText (toUpperCase (bottomText s)) (num_div width 2)
               (inject_Z (height - 10))
    else ret tt))%draw.

(** [y + (i * fontSize * 1.1)]: the integer [i * fontSize] times the double
    [1.1], rounded, added to [y], rounded. *)
Definition line_y (y i fontSize : Z) : Q :=
  to_double (inject_Z y + to_double (inject_Z (i * fontSize) * double_1_1)).

(** Lines 161-186: the magic caption, wrapped and drawn at the bottom. *)
Definition drawMagic (s : AppState) (width height fontSize : Z) : Draw unit :=
  (k <- get_ctx ;;
   let lineArray := wrapLines k width (selectedCaption s) in
   set_textBaseline BaselineBottom ;;
   let y := height - 20 - (Z.of_nat (List.length lineArray) - 1) * fontSize in
   forEach lineArray (fun l i =>
     strokeText (toUpperCase l) (num_div width 2) (line_y y i fontSize) ;;
     fillText (toUpperCase l) (num_div width 2) (line_y y i fontSize)))%draw.

(** Lines 134-189: the text, drawn in caption mode only.  ([lines], the
    split of [displayText] at line feeds, is not used by the code.) *)
Definition drawText (s : AppState) (width height : Z) : Draw unit :=
  if AppMode_eqb (mode s) CAPTION then
    let displayText :=
      or_else (selectedCaption s)
              (topText s ++ (if truthy (bottomText s) then LF ++ bottomText s else "")) in
    if truthy displayText then
      let fontSize := Math_floor (num_div width 10) in
      (set_font (font_of fontSize) ;;
       set_fillStyle "white" ;;
       set_strokeStyle "black" ;;
       set_lineWidth (Math_floor (num_div fontSize 8)) ;;
       set_textAlign AlignCenter ;;
       set_textBaseline BaselineTop ;;
       if truthy (topText s) || truthy (bottomText s) then
         drawManual s width height
       else if truthy (selectedCaption s) then
         drawMagic s width height fontSize
       else ret tt)%draw
    else ret tt
  else ret tt.

(** Lines 112-190: [img.onload]. *)
Definition onload (s : AppState) (img : Image) : Draw unit :=
  let (width, height) := fit (img_width img) (img_height img) in
  (set_canvas_width width ;;
   set_canvas_height height ;;
   drawImage img 0 0 width height ;;
   drawText s width height)%draw.

(** Lines 103-191: the effect.  [decode] is the browser loading [img.src]:
    it gives the image whose [onload] fires, or nothing when the source does
    not decode; [canvas] is [canvasRef.current]. *)
Definition renderEffect (decode : string -> option Image) (s : AppState)
    (canvas : option Canvas) : option Canvas :=
  match canvas with
  | None => None
  | Some c =>
      if has_image s then
        match imageSrc s with
        | Some src =>
            match decode src with
            | Some img => Some (exec (onload s img) c)
            | None => Some c
            end
        | None => Some c
        end
      else Some c
  end.

End Render.

(** A measurement stub: every character is [px] pixels wide in every font. *)
Definition fixedWidth (px : Z) (k : Context2D) (t : string) : Q :=
  inject_Z (px * Z.of_nat (String.length t)).

(** A measurement stub that tells the cases apart: a lower-case ASCII
    letter is [lo] pixels wide, every other character [hi]. *)
Fixpoint caseWidth (lo hi : Z) (t : string) : Z :=
  match t with
  | EmptyString => 0
  | String c t' =>
      let n := nat_of_ascii c in
      (if (97 <=? n)%nat && (n <=? 122)%nat then lo else hi) + caseWidth lo hi t'
  end.

(* ================================================================== *)
(** ** Vocabulary for what is on the surface *)
(* ================================================================== *)

(** A glyph run: the drawing state, the text and the anchor of a text call. *)
Record TextRun := mkRun {
  run_st : Context2D;
  run_txt : string;
  run_x : Q;
  run_y : Q
}.

(** The runs filled on a surface, in painting order. *)
Definition filled (calls : list DrawCall) : list TextRun :=
  flat_map (fun call =>
              match call with
              | FillText k t x y => [mkRun k t x y]
              | _ => []
              end) calls.

(** A run outlined, then filled. *)
Definition paint_run (r : TextRun) : list DrawCall :=
  [StrokeText (run_st r) (run_txt r) (run_x r) (run_y r);
   FillText (run_st r) (run_txt r) (run_x r) (run_y r)].

(** The drawing state once lines 140-145 have run on a context that was
    just reset, with [textBaseline] as it is set afterwards: the line width
    is the one assigned when that is positive, and the 1 of the reset context
    when it is not. *)
Definition styled (fontSize : Z) (baseline : CanvasTextBaseline) : Context2D :=
  mkCtx (font_of fontSize) "white" "black"
        (if (0 <? Math_floor (num_div fontSize 8))%Z
         then Math_floor (num_div fontSize 8) else 1)
        AlignCenter baseline.

(** The words of a line, each followed by the space the loop appends. *)
Fixpoint joinWords (g : list string) : string :=
  match g with
  | [] => ""
  | w :: g' => w ++ " " ++ joinWords g'
  end.

(** The elements of an array with their indices, from [i] on. *)
Fixpoint indexed_from {A : Type} (i : Z) (arr : list A) : list (A * Z) :=
  match arr with
  | [] => []
  | a :: rest => (a, i) :: indexed_from (i + 1) rest
  end.

(** The session slots an AI action must leave alone when it fails. *)
Definition same_session (s s' : AppState) : Prop :=
  mode s' = mode s /\
  imageSrc s' = imageSrc s /\
  captions s' = captions s /\
  selectedCaption s' = selectedCaption s /\
  topText s' = topText s /\
  bottomText s' = bottomText s /\
  editPrompt s' = editPrompt s /\
  analysis s' = analysis s.

(** Nothing of a previous image is left. *)
Definition cleared (s : AppState) : Prop :=
  captions s = [] /\
  selectedCaption s = "" /\
  topText s = "" /\
  bottomText s = "" /\
  editPrompt s = "" /\
  analysis s = None /\
  error s = None.

(** At most one of the two caption representations is non-empty. *)
Definition exclusive (s : AppState) : Prop :=
  selectedCaption s = "" \/ (topText s = "" /\ bottomText s = "").

Section Runs.

Variable measureText : Context2D -> string -> Q.

(** The runs [drawText] paints on a canvas of [width] x [height]. *)
Definition manualRuns (s : AppState) (width height : Z) : list TextRun :=
  let fontSize := Math_floor (num_div width 10) in
  ((if truthy (topText s) then
      [mkRun (styled fontSize BaselineTop) (toUpperCase (topText s))
             (num_div width 2) (inject_Z 10)]
    else []) ++
   (if truthy (bottomText s) then
      [mkRun (styled fontSize BaselineBottom) (toUpperCase (bottomText s))
             (num_div width 2) (inject_Z (height - 10))]
    else []))%list.

Definition magicRuns (s : AppState) (width height : Z) : list TextRun :=
  let fontSize := Math_floor (num_div width 10) in
  let lineArray :=
    wrapLines measureText (styled fontSize BaselineTop) width (selectedCaption s) in
  let y := height - 20 - (Z.of_nat (List.length lineArray) - 1) * fontSize in
  map (fun li => mkRun (styled fontSize BaselineBottom) (toUpperCase (fst li))
                       (num_div width 2) (line_y y (snd li) fontSize))
      (indexed_from 0 lineArray).

Definition textRuns (s : AppState) (width height : Z) : list TextRun :=
  match mode s with
  | CAPTION =>
      if truthy (topText s) || truthy (bottomText s) then manualRuns s width height
      else if truthy (selectedCaption s) then magicRuns s width height
      else []
  | _ => []
  end.

(** A line of the words [g] is within the budget when the loop measured it
    at [width - 40] at most, or when it is one word. *)
Definition within_budget (k : Context2D) (width : Z) (g : list string) : Prop :=
  (measureText k (joinWords g) <= inject_Z (width - 40))%Q \/ exists w, g = [w].

End Runs.

(* ================================================================== *)
(** ** The error box and the tabs *)
(* ================================================================== *)

(** Lines 298, 336 and 497-501: what the error box shows.  It is part of
    the workspace, which is rendered only while there is an image, and it is
    rendered only for a truthy [error]. *)
Definition errorBox (s : AppState) : option string :=
  if has_image s then
    match error s with
    | Some m => if truthy m then Some m else None
    | None => None
    end
  else None.

(** The mode of the last tab clicked among [events], [m] when there is none. *)
Definition lastTab (events : list Event) (m : AppMode) : AppMode :=
  fold_left (fun m e => match e with TabClick m' => m' | _ => m end) events m.

(** A session whose error, when there is one, is a non-empty message. *)
Definition error_wellformed (s : AppState) : Prop :=
  match error s with
  | Some m => m <> ""
  | None => True
  end.

(** Half a unit in the last place of a double, relative to its value:
    [2 ^ -53]. *)
Definition half_ulp : Q := 1 # 9007199254740992.

Section Breaks.

Variable measureText : Context2D -> string -> Q.

(** Every line but the last was closed because the next word did not fit
    after it: the line before [g'], extended by the first word of [g'],
    measures more than [width - 40]. *)
Fixpoint broken_on_overflow (k : Context2D) (width : Z)
    (groups : list (list string)) : Prop :=
  match groups with
  | g :: ((g' :: _) as rest) =>
      match g' with
      | w :: _ =>
          (inject_Z (width - 40) < measureText k (joinWords g ++ w ++ " "))%Q
      | [] => False
      end /\ broken_on_overflow k width rest
  | _ => True
  end.

End Breaks.
(* ================================================================== *)
(** ** Arithmetic of the primitives *)
(* ================================================================== *)

Lemma truthy_true (s : string) : truthy s = true <-> s <> "".
Proof.
  unfold truthy. destruct (String.eqb_spec s ""); simpl; split; congruence.
Qed.

Lemma truthy_false (s : string) : truthy s = false <-> s = "".
Proof.
  unfold truthy. destruct (String.eqb_spec s ""); simpl; split; congruence.
Qed.

Lemma Math_floor_div (a b : Z) : Math_floor (num_div a b) = a / b.
Proof. unfold Math_floor, num_div. symmetry. apply Zdiv_Qdiv. Qed.

(** [Math.round] of a quotient of integers, in integer arithmetic. *)
Lemma Math_round_div (a b : Z) :
  0 < b -> Math_round (num_div a b) = (2 * a + b) / (2 * b).
Proof.
  intros Hb. unfold Math_round, num_div.
  rewrite (Zdiv_Qdiv (2 * a + b) (2 * b)).
  apply Qfloor_comp.
  rewrite inject_Z_plus, !inject_Z_mult.
  assert (Hq : ~ (inject_Z b == 0)%Q).
  { intros E. unfold Qeq in E. simpl in E. lia. }
  field. exact Hq.
Qed.

Lemma num_gt_true (a b : Q) : num_gt a b = true <-> (b < a)%Q.
Proof.
  unfold num_gt. rewrite negb_true_iff.
  split.
  - intros H. apply Qnot_le_lt. intros L.
    apply Qle_bool_iff in L. congruence.
  - intros H. destruct (Qle_bool a b) eqn:E; [ | reflexivity ].
    apply Qle_bool_iff in E. exfalso. exact (Qlt_not_le _ _ H E).
Qed.

Lemma num_gt_false (a b : Q) : num_gt a b = false <-> (a <= b)%Q.
Proof.
  unfold num_gt. rewrite negb_false_iff. apply Qle_bool_iff.
Qed.

Lemma num_gt_compat (a a' b : Q) : (a == a')%Q -> num_gt a b = num_gt a' b.
Proof.
  intros E. unfold num_gt. f_equal.
  destruct (Qle_bool a b) eqn:H, (Qle_bool a' b) eqn:H'; try reflexivity.
  - apply Qle_bool_iff in H. rewrite E in H. apply Qle_bool_iff in H. congruence.
  - apply Qle_bool_iff in H'. rewrite <- E in H'. apply Qle_bool_iff in H'.
    congruence.
Qed.

(* ================================================================== *)
(** ** The session: captions exclude each other, loads reset, failures
       leave the session alone *)
(* ================================================================== *)

Lemma try_catch_finally_captions {A : Type} (ok : A -> AppState -> AppState)
    (fallback : string) (r : Settled A) (s : AppState) :
  (forall a s0, selectedCaption (ok a s0) = selectedCaption s0 /\
                topText (ok a s0) = topText s0 /\
                bottomText (ok a s0) = bottomText s0) ->
  selectedCaption (try_catch_finally ok fallback r s) = selectedCaption s /\
  topText (try_catch_finally ok fallback r s) = topText s /\
  bottomText (try_catch_finally ok fallback r s) = bottomText s.
Proof.
  intros Hok. unfold try_catch_finally.
  destruct r as [a | message]; simpl; [ apply Hok | auto ].
Qed.

Lemma exclusive_same_captions (s s' : AppState) :
  selectedCaption s' = selectedCaption s /\
  topText s' = topText s /\
  bottomText s' = bottomText s ->
  exclusive s -> exclusive s'.
Proof.
  unfold exclusive. intros (-> & -> & ->). exact (fun H => H).
Qed.

Lemma step_exclusive (s : AppState) (e : Event) :
  exclusive s -> exclusive (step s e).
Proof.
  intros H. destruct e; simpl.
  - exact H.
  - right. split; reflexivity.
  - left. reflexivity.
  - left. reflexivity.
  - exact H.
  - exact H.
  - unfold handleFileUpload_onload.
    destruct result as [r | ]; [ destruct (truthy r) | ]; try exact H.
    left. reflexivity.
  - exact H.
  - left. reflexivity.
  - exact H.
  - destruct (has_image s); exact H.
  - revert H. apply exclusive_same_captions.
    apply try_catch_finally_captions. intros; simpl; auto.
  - destruct (has_image s && truthy (editPrompt s)); exact H.
  - revert H. apply exclusive_same_captions.
    apply try_catch_finally_captions. intros; simpl; auto.
  - destruct (has_image s); exact H.
  - revert H. apply exclusive_same_captions.
    apply try_catch_finally_captions. intros; simpl; auto.
Qed.

Lemma run_exclusive (events : list Event) :
  forall s, exclusive s -> exclusive (run events s).
Proof.
  unfold run. induction events as [ | e events IH]; intros s H; simpl.
  - exact H.
  - apply IH. apply step_exclusive. exact H.
Qed.

(** C6.  Clicking a suggestion selects its text and empties both manual
    strings; typing in either manual input empties the selected caption;
    and after any sequence of events from the initial session, the selected
    caption is empty or both manual strings are. *)
Theorem caption_mutual_exclusion :
  (forall cap s,
      selectedCaption (suggestion_onClick cap s) = text cap /\
      topText (suggestion_onClick cap s) = "" /\
      bottomText (suggestion_onClick cap s) = "") /\
  (forall value s,
      topText (topText_onChange value s) = value /\
      selectedCaption (topText_onChange value s) = "") /\
  (forall value s,
      bottomText (bottomText_onChange value s) = value /\
      selectedCaption (bottomText_onChange value s) = "") /\
  (forall events, exclusive (run events initialState)).
Proof.
  repeat split.
  intros events. apply run_exclusive. left. reflexivity.
Qed.

Lemma message_or_truthy (message : option string) (fallback : string) :
  fallback <> "" -> message_or message fallback <> "".
Proof.
  intros Hf. unfold message_or, or_else.
  destruct message as [m | ]; [ | exact Hf ].
  destruct (truthy m) eqn:E; [ apply truthy_true; exact E | exact Hf ].
Qed.

(** A rejected call changes the error and the busy flag, nothing else,
    whatever the session has become while the call was pending. *)
Lemma rejected_settle {A : Type} (ok : A -> AppState -> AppState)
    (fallback : string) (message : option string) (s : AppState) :
  fallback <> "" ->
  let s' := try_catch_finally ok fallback (Rejected message) s in
  same_session s s' /\
  (exists msg, error s' = Some msg /\ msg <> "") /\
  isLoading s' = false.
Proof.
  intros Hf. simpl. split; [ | split ].
  - unfold same_session; simpl; repeat split.
  - exists (message_or message fallback). split; [ reflexivity | ].
    apply message_or_truthy. exact Hf.
  - reflexivity.
Qed.

Lemma finally_clears_busy {A : Type} (ok : A -> AppState -> AppState)
    (fallback : string) (r : Settled A) (s : AppState) :
  isLoading (try_catch_finally ok fallback r s) = false.
Proof. reflexivity. Qed.

Lemma same_session_begin (s s' : AppState) :
  same_session (ai_begin s) s' -> same_session s s'.
Proof. exact (fun H => H). Qed.

(** C8.  When the awaited call of an AI action is rejected, the mode, the
    image, the captions, the selected caption, both manual strings, the edit
    prompt and the analysis are what they were before the action, [error]
    holds a non-empty message and [isLoading] is false; [isLoading] is false
    after the action whether the call was resolved or rejected. *)
Theorem ai_failure_atomic (s : AppState) (message : option string) :
  has_image s = true ->
  (let s' := handleMagicCaption (Rejected message) s in
   same_session s s' /\
   (exists msg, error s' = Some msg /\ msg <> "") /\ isLoading s' = false) /\
  (let s' := handleAnalyzeImage (Rejected message) s in
   same_session s s' /\
   (exists msg, error s' = Some msg /\ msg <> "") /\ isLoading s' = false) /\
  (truthy (editPrompt s) = true ->
   let s' := handleEditImage (Rejected message) s in
   same_session s s' /\
   (exists msg, error s' = Some msg /\ msg <> "") /\ isLoading s' = false) /\
  (forall r, isLoading (handleMagicCaption r s) = false) /\
  (forall r, isLoading (handleAnalyzeImage r s) = false) /\
  (forall r, truthy (editPrompt s) = true ->
             isLoading (handleEditImage r s) = false).
Proof.
  intros Himg.
  unfold handleMagicCaption, handleAnalyzeImage, handleEditImage.
  rewrite Himg. simpl negb. cbv iota.
  split; [ | split; [ | split; [ | split; [ | split ] ] ] ].
  - destruct (rejected_settle setCaptions "Failed to generate captions"
                message (ai_begin s)) as (H1 & H2 & H3); [ discriminate | ].
    split; [ apply same_session_begin; exact H1 | split; assumption ].
  - destruct (rejected_settle (fun result s0 => setAnalysis (Some result) s0)
                "Failed to analyze image" message (ai_begin s))
      as (H1 & H2 & H3); [ discriminate | ].
    split; [ apply same_session_begin; exact H1 | split; assumption ].
  - intros Hp. rewrite Hp. simpl.
    split; [ unfold same_session; simpl; repeat split | split ].
    + exists (message_or message "Failed to edit image").
      split; [ reflexivity | apply message_or_truthy; discriminate ].
    + reflexivity.
  - intros r. reflexivity.
  - intros r. reflexivity.
  - intros r Hp. rewrite Hp. reflexivity.
Qed.

(** C8 at a session with an image, a selected caption and an edit prompt,
    when the service answers with a quota error. *)
Lemma ai_failure_atomic_witness :
  let s := mkApp EDIT (Some "data:image/png;base64,AAAA") false None
                 [ {| text := "so true"; category := Relatable |} ]
                 "so true" "" "" "make it vintage" None in
  has_image s = true /\
  same_session s (handleEditImage (Rejected (Some "quota exceeded")) s) /\
  error (handleEditImage (Rejected (Some "quota exceeded")) s)
    = Some "quota exceeded" /\
  isLoading (handleMagicCaption (Rejected None) s) = false.
Proof.
  pose (s := mkApp EDIT (Some "data:image/png;base64,AAAA") false None
                   [ {| text := "so true"; category := Relatable |} ]
                   "so true" "" "" "make it vintage" None).
  pose proof (ai_failure_atomic s (Some "quota exceeded") eq_refl) as H.
  destruct H as (_ & _ & He & _).
  specialize (He eq_refl). destruct He as (Hs & _ & _).
  pose proof (ai_failure_atomic s None eq_refl) as H'.
  destruct H' as ((_ & _ & Hl) & _).
  split; [ reflexivity | split; [ exact Hs | split; [ reflexivity | exact Hl ] ] ].
Defined.

Lemma resetState_cleared (s : AppState) : cleared (resetState s).
Proof. unfold cleared; simpl; repeat split. Qed.

(** C9.  When a file has been read, and when a template has been fetched
    and read, the image is the new one and the captions, the selected
    caption, both manual strings, the edit prompt, the analysis and the error
    are empty. *)
Theorem image_load_resets_session (s : AppState) (dataUrl : string) :
  dataUrl <> "" ->
  (imageSrc (handleFileUpload_onload (Some dataUrl) s) = Some dataUrl /\
   cleared (handleFileUpload_onload (Some dataUrl) s)) /\
  (imageSrc (selectTemplate (Resolved (Some dataUrl)) s) = Some dataUrl /\
   cleared (selectTemplate (Resolved (Some dataUrl)) s) /\
   isLoading (selectTemplate (Resolved (Some dataUrl)) s) = false).
Proof.
  intros Hd. apply truthy_true in Hd.
  unfold handleFileUpload_onload. rewrite Hd.
  split; split; try reflexivity.
  - apply resetState_cleared.
  - split; [ apply resetState_cleared | reflexivity ].
Qed.

(** C9 at a session that carries captions, a selection, an edit prompt, an
    analysis and an error from the previous image. *)
Lemma image_load_resets_session_witness :
  let s := mkApp ANALYZE (Some "data:image/png;base64,AAAA") false
                 (Some "Failed to edit image")
                 [ {| text := "so true"; category := Relatable |} ]
                 "so true" "" "" "make it vintage"
                 (Some {| description := "a dog"; tags := ["dog"] |}) in
  "data:image/png;base64,BBBB" <> "" /\
  imageSrc (handleFileUpload_onload (Some "data:image/png;base64,BBBB") s)
    = Some "data:image/png;base64,BBBB" /\
  cleared (handleFileUpload_onload (Some "data:image/png;base64,BBBB") s) /\
  cleared (selectTemplate (Resolved (Some "data:image/png;base64,BBBB")) s).
Proof.
  pose (s := mkApp ANALYZE (Some "data:image/png;base64,AAAA") false
                   (Some "Failed to edit image")
                   [ {| text := "so true"; category := Relatable |} ]
                   "so true" "" "" "make it vintage"
                   (Some {| description := "a dog"; tags := ["dog"] |})).
  assert (Hd : "data:image/png;base64,BBBB" <> "") by discriminate.
  destruct (image_load_resets_session s "data:image/png;base64,BBBB" Hd)
    as ((H1 & H2) & (_ & H3 & _)).
  split; [ exact Hd | split; [ exact H1 | split; [ exact H2 | exact H3 ] ] ].
Defined.

(* ================================================================== *)
(** ** Rounding to doubles *)
(* ================================================================== *)

Lemma round_half_even_bounds (q : Q) :
  (q - (1 # 2) <= inject_Z (round_half_even q) <= q + (1 # 2))%Q.
Proof.
  unfold round_half_even.
  pose proof (Qfloor_le q) as Hl.
  pose proof (Qlt_floor q) as Hu. rewrite inject_Z_plus in Hu.
  change (inject_Z 1) with 1%Q in Hu.
  destruct (Qcompare_spec (q - inject_Z (Qfloor q)) (1 # 2)) as [E | L | G].
  - destruct (Z.even (Qfloor q)); rewrite ?inject_Z_plus;
      change (inject_Z 1) with 1%Q; lra.
  - lra.
  - rewrite inject_Z_plus. change (inject_Z 1) with 1%Q. lra.
Qed.

Lemma round_half_even_Z (q : Q) (z : Z) :
  (q == inject_Z z)%Q -> round_half_even q = z.
Proof.
  intros E. unfold round_half_even.
  rewrite (Qfloor_comp _ _ E), Qfloor_Z.
  destruct (Qcompare_spec (q - inject_Z z) (1 # 2)) as [H | H | H];
    [ exfalso; lra | reflexivity | exfalso; lra ].
Qed.

Lemma pow2_pos (e : Z) : (0 < 2 ^ e)%Q.
Proof. apply Qpower_0_lt. reflexivity. Qed.

Lemma round_to_bounds (e : Z) (q : Q) :
  (q - 2 ^ e * (1 # 2) <= round_to e q <= q + 2 ^ e * (1 # 2))%Q.
Proof.
  unfold round_to.
  pose proof (pow2_pos e) as Hp.
  pose proof (round_half_even_bounds (q / 2 ^ e)) as [Hl Hu].
  set (m := inject_Z (round_half_even (q / 2 ^ e))) in *.
  set (P := (2 ^ e)%Q) in *.
  assert (Hq : (q == q / P * P)%Q) by (field; lra).
  set (x := (q / P)%Q) in *.
  split.
  - assert ((x - (1 # 2)) * P <= m * P)%Q by (apply Qmult_le_compat_r; lra).
    lra.
  - assert (m * P <= (x + (1 # 2)) * P)%Q by (apply Qmult_le_compat_r; lra).
    lra.
Qed.

Lemma Zfrac_le (A B n d : Z) :
  0 < A <= n -> 0 < d <= B ->
  (inject_Z A / inject_Z B <= inject_Z n / inject_Z d)%Q.
Proof.
  intros HA Hd.
  assert (HB : (0 < inject_Z B)%Q) by (rewrite <- (Zlt_Qlt 0); lia).
  assert (Hd' : (0 < inject_Z d)%Q) by (rewrite <- (Zlt_Qlt 0); lia).
  apply Qle_shift_div_r; [ exact HB | ].
  assert (E : (inject_Z n / inject_Z d * inject_Z B
               == inject_Z (n * B) / inject_Z d)%Q).
  { rewrite inject_Z_mult. field. lra. }
  rewrite E. apply Qle_shift_div_l; [ exact Hd' | ].
  rewrite <- inject_Z_mult, <- Zle_Qle. nia.
Qed.

Lemma pow2_inject (k : Z) : 0 <= k -> (2 ^ k == inject_Z (2 ^ k))%Q.
Proof. intros H. rewrite (Zpower_Qpower 2 k H). reflexivity. Qed.

Lemma ilog2_le (a : Q) : (0 < a)%Q -> (2 ^ ilog2 a <= a)%Q.
Proof.
  intros Ha. unfold ilog2.
  set (ln := Z.log2 (Qnum a)). set (ld := Z.log2 (Zpos (Qden a))).
  destruct (Qle_bool (2 ^ (ln - ld)) a) eqn:E.
  - apply Qle_bool_iff. exact E.
  - assert (Hn : 0 < Qnum a).
    { unfold Qlt in Ha. simpl in Ha. lia. }
    pose proof (Z.log2_spec (Qnum a) Hn) as [Hn1 _]. fold ln in Hn1.
    pose proof (Z.log2_spec (Zpos (Qden a)) (Pos2Z.is_pos _)) as [_ Hd2].
    fold ld in Hd2.
    pose proof (Z.log2_nonneg (Qnum a)) as Hln. fold ln in Hln.
    pose proof (Z.log2_nonneg (Zpos (Qden a))) as Hld. fold ld in Hld.
    replace (ln - ld - 1) with (ln - Z.succ ld) by lia.
    rewrite Qpower_minus by discriminate.
    rewrite (pow2_inject ln Hln), (pow2_inject (Z.succ ld)) by lia.
    assert (Ea : (a == inject_Z (Qnum a) / inject_Z (Zpos (Qden a)))%Q).
    { destruct a as [n d]. apply Qmake_Qdiv. }
    rewrite Ea.
    apply Zfrac_le.
    + split; [ apply Z.pow_pos_nonneg; lia | exact Hn1 ].
    + split; [ apply Pos2Z.is_pos | lia ].
Qed.

Lemma to_double_pos (q : Q) :
  (0 < q)%Q ->
  (q - q * half_ulp <= to_double q <= q + q * half_ulp)%Q.
Proof.
  intros Hq. unfold to_double.
  destruct (Qcompare_spec q 0) as [H | H | H]; [ exfalso; lra | exfalso; lra | ].
  pose proof (round_to_bounds (ilog2 q - 52) q) as [Hl Hu].
  pose proof (ilog2_le q Hq) as Hlog.
  assert (E : (2 ^ (ilog2 q - 52) * (1 # 2) == 2 ^ ilog2 q * half_ulp)%Q).
  { rewrite Qpower_minus by discriminate.
    assert (E52 : (2 ^ 52 == 4503599627370496)%Q) by reflexivity.
    rewrite E52. unfold half_ulp. field. }
  rewrite E in Hl, Hu.
  assert (2 ^ ilog2 q * half_ulp <= q * half_ulp)%Q.
  { apply Qmult_le_compat_r; [ exact Hlog | unfold half_ulp; lra ]. }
  lra.
Qed.

Lemma to_double_near (q B : Q) :
  (- B <= q <= B)%Q ->
  (- (B * half_ulp) <= to_double q - q <= B * half_ulp)%Q.
Proof.
  intros [Hl Hu].
  assert (Hh : (0 < half_ulp)%Q) by reflexivity.
  destruct (Qcompare_spec q 0) as [H | H | H].
  - unfold to_double. destruct (Qcompare_spec q 0); try (exfalso; lra).
    assert (0 <= B * half_ulp)%Q by (apply Qmult_le_0_compat; lra). lra.
  - assert (Hp : (0 < - q)%Q) by lra.
    pose proof (to_double_pos (- q) Hp) as Hb.
    unfold to_double in *.
    destruct (Qcompare_spec q 0); try (exfalso; lra).
    destruct (Qcompare_spec (- q) 0); try (exfalso; lra).
    assert (- q * half_ulp <= B * half_ulp)%Q
      by (apply Qmult_le_compat_r; lra).
    lra.
  - pose proof (to_double_pos q H) as Hb.
    assert (q * half_ulp <= B * half_ulp)%Q
      by (apply Qmult_le_compat_r; lra).
    lra.
Qed.

Lemma ilog2_Z (z : Z) : 0 < z -> ilog2 (inject_Z z) = Z.log2 z.
Proof.
  intros Hz. unfold ilog2. simpl Qnum. simpl Qden.
  change (Z.log2 1) with 0. rewrite Z.sub_0_r.
  pose proof (Z.log2_spec z Hz) as [Hl _].
  pose proof (Z.log2_nonneg z) as Hn.
  assert (E : Qle_bool (2 ^ Z.log2 z) (inject_Z z) = true).
  { apply Qle_bool_iff. rewrite (pow2_inject _ Hn), <- Zle_Qle. exact Hl. }
  rewrite E. reflexivity.
Qed.

Lemma round_to_Z (z : Z) :
  0 < z < 2 ^ 53 -> (round_to (ilog2 (inject_Z z) - 52) (inject_Z z) == inject_Z z)%Q.
Proof.
  intros [Hz Hb]. rewrite (ilog2_Z z Hz).
  assert (Hl : Z.log2 z < 53) by (apply Z.log2_lt_pow2; lia).
  pose proof (Z.log2_nonneg z) as Hn.
  set (k := 52 - Z.log2 z). assert (Hk : 0 <= k) by (unfold k; lia).
  replace (Z.log2 z - 52) with (- k) by (unfold k; lia).
  unfold round_to.
  assert (Hp : (2 ^ (- k) == / inject_Z (2 ^ k))%Q).
  { rewrite Qpower_opp, (pow2_inject k Hk). reflexivity. }
  assert (Hpos : (0 < inject_Z (2 ^ k))%Q).
  { rewrite <- (Zlt_Qlt 0). apply Z.pow_pos_nonneg; lia. }
  rewrite (round_half_even_Z _ (z * 2 ^ k)).
  - rewrite Hp, inject_Z_mult. field. lra.
  - rewrite Hp, inject_Z_mult. field. lra.
Qed.

(** An integer below 2^53 in magnitude is a double. *)
Lemma to_double_Z (z : Z) :
  - 2 ^ 53 < z < 2 ^ 53 -> (to_double (inject_Z z) == inject_Z z)%Q.
Proof.
  intros Hz. unfold to_double.
  destruct (Qcompare_spec (inject_Z z) 0) as [H | H | H].
  - rewrite H. reflexivity.
  - change 0%Q with (inject_Z 0) in H. rewrite <- Zlt_Qlt in H.
    change (- inject_Z z)%Q with (inject_Z (- z)).
    rewrite round_to_Z by lia. rewrite inject_Z_opp. ring.
  - change 0%Q with (inject_Z 0) in H. rewrite <- Zlt_Qlt in H.
    apply round_to_Z. lia.
Qed.

Lemma line_y_first (y fontSize : Z) :
  - 2 ^ 53 < y < 2 ^ 53 -> (line_y y 0 fontSize == inject_Z y)%Q.
Proof.
  intros Hy. unfold line_y.
  change (to_double (inject_Z (0 * fontSize) * double_1_1)) with 0%Q.
  replace (inject_Z y + 0)%Q with (inject_Z y).
  - apply to_double_Z. exact Hy.
  - unfold Qplus, inject_Z. simpl. f_equal. lia.
Qed.

(** [double_1_1] is 11/10 and a little. *)
Lemma double_1_1_value : (double_1_1 == (11 # 10) + (1 # 11258999068426240))%Q.
Proof. reflexivity. Qed.

(** Within the bounds of a caption of up to a million lines, a line is
    anchored within a millionth of [y + i * fontSize * 11/10]. *)
Lemma line_y_near (y i fontSize : Z) :
  - 100000000 <= y <= 100000000 ->
  0 <= i * fontSize <= 100000000 ->
  (- (1 # 1000000)
   <= line_y y i fontSize
      - (inject_Z y + inject_Z (i * fontSize) * (11 # 10))
   <= 1 # 1000000)%Q.
Proof.
  intros Hy Hp. unfold line_y.
  set (P := inject_Z (i * fontSize)).
  assert (HP : (0 <= P <= 100000000)%Q).
  { unfold P. change 0%Q with (inject_Z 0).
    change 100000000%Q with (inject_Z 100000000).
    rewrite <- !Zle_Qle. exact Hp. }
  assert (HY : (- (100000000) <= inject_Z y <= 100000000)%Q).
  { change (- (100000000))%Q with (inject_Z (- 100000000)).
    change 100000000%Q with (inject_Z 100000000).
    rewrite <- !Zle_Qle. exact Hy. }
  pose proof double_1_1_value as Ed.
  set (d := double_1_1) in *.
  assert (Hd : (0 <= P * d <= 200000000)%Q) by nra.
  pose proof (to_double_near (P * d) 200000000) as H1.
  set (t1 := to_double (P * d)) in *.
  assert (Hh : (half_ulp == 1 # 9007199254740992)%Q) by reflexivity.
  pose proof (to_double_near (inject_Z y + t1) 400000000) as H2.
  set (t2 := to_double (inject_Z y + t1)) in *.
  assert (- (200000000 * half_ulp) <= t1 - P * d <= 200000000 * half_ulp)%Q
    by (apply H1; lra).
  assert (- (400000000 * half_ulp) <= t2 - (inject_Z y + t1)
          <= 400000000 * half_ulp)%Q by (apply H2; lra).
  nra.
Qed.

(* ================================================================== *)
(** ** What the effect paints *)
(* ================================================================== *)

Section RenderFacts.

Variable measureText : Context2D -> string -> Q.

Lemma filled_paint_runs (runs : list TextRun) :
  filled (flat_map paint_run runs) = runs.
Proof.
  induction runs as [ | [k t x y] runs IH]; simpl; [ reflexivity | ].
  f_equal. exact IH.
Qed.

Lemma forEach_from_runs (f : string -> Z -> TextRun) (arr : list string) :
  forall (i : Z) (c : Canvas),
    (forall l j, run_st (f l j) = ctx c) ->
    forEach_from i arr
      (fun l j => strokeText (run_txt (f l j)) (run_x (f l j)) (run_y (f l j)) ;;
                  fillText (run_txt (f l j)) (run_x (f l j)) (run_y (f l j)))%draw c
    = (tt, mkCanvas (canvas_width c) (canvas_height c) (ctx c)
             (painted c ++ flat_map paint_run
                (map (fun li => f (fst li) (snd li)) (indexed_from i arr)))).
Proof.
  induction arr as [ | l arr IH]; intros i c Hst; simpl.
  - unfold ret. rewrite app_nil_r. destruct c; reflexivity.
  - unfold bind at 1. unfold bind at 1.
    unfold strokeText, fillText, paint at 1 2. simpl.
    rewrite IH by (intros; simpl; apply Hst).
    simpl. rewrite <- !app_assoc. simpl.
    unfold paint_run at 2. rewrite !Hst. reflexivity.
Qed.

(** [displayText] is truthy exactly when one of the three strings is. *)
Lemma displayText_truthy (s : AppState) :
  truthy (or_else (selectedCaption s)
            (topText s ++ (if truthy (bottomText s) then LF ++ bottomText s else "")))
  = truthy (selectedCaption s) || truthy (topText s) || truthy (bottomText s).
Proof.
  unfold or_else.
  destruct (truthy (selectedCaption s)) eqn:Es; [ exact Es | ].
  simpl. destruct (topText s) as [ | a t]; [ | reflexivity ].
  simpl. destruct (truthy (bottomText s)) eqn:Eb; reflexivity.
Qed.

Lemma drawText_exec (s : AppState) (width height : Z) (calls : list DrawCall) :
  exists k,
    exec (drawText measureText s width height)
         (mkCanvas width height defaultContext calls)
    = mkCanvas width height k
        (calls ++ flat_map paint_run (textRuns measureText s width height))%list.
Proof.
  unfold drawText, textRuns, manualRuns, magicRuns, styled, set_lineWidth.
  set (fontSize := Math_floor (num_div width 10)).
  set (lw := Math_floor (num_div fontSize 8)).
  destruct (mode s); simpl AppMode_eqb; cbv iota;
    try (eexists; unfold exec, ret; simpl; rewrite app_nil_r; reflexivity).
  rewrite displayText_truthy.
  destruct (truthy (topText s)) eqn:Et; [ | destruct (truthy (bottomText s)) eqn:Eb ].
  - rewrite orb_true_r. simpl orb. cbv iota.
    unfold drawManual. rewrite Et.
    destruct (truthy (bottomText s)) eqn:Eb; destruct (0 <? lw)%Z;
      eexists; unfold exec; simpl; rewrite <- ?app_assoc; reflexivity.
  - rewrite orb_true_r. simpl orb. cbv iota.
    unfold drawManual. rewrite Et, Eb.
    destruct (0 <? lw)%Z;
      eexists; unfold exec; simpl; rewrite <- ?app_assoc; reflexivity.
  - rewrite !orb_false_r. simpl orb.
    destruct (truthy (selectedCaption s)) eqn:Es;
      [ | eexists; unfold exec, ret; simpl; rewrite app_nil_r; reflexivity ].
    destruct (0 <? lw)%Z;
      unfold exec, bind, set_font, set_fillStyle, set_strokeStyle,
        set_textAlign, set_textBaseline, modify_ctx; simpl;
      unfold drawMagic, bind, get_ctx, set_textBaseline, modify_ctx, forEach;
      simpl;
      match goal with
      | |- context [wrapLines measureText ?k width (selectedCaption s)] =>
          set (lineArray := wrapLines measureText k width (selectedCaption s))
      end;
      set (y := height - 20 - (Z.of_nat (List.length lineArray) - 1) * fontSize);
      match goal with
      | |- context [forEach_from _ _ _ (mkCanvas _ _ ?kb _)] =>
          rewrite (forEach_from_runs
                     (fun l j => mkRun kb (toUpperCase l) (num_div width 2)
                                       (line_y y j fontSize)))
            by reflexivity
      end;
      eexists; reflexivity.
Qed.

(** When there is text to draw, the context is left styled. *)
Lemma drawText_ctx (s : AppState) (width height : Z) (calls : list DrawCall) :
  mode s = CAPTION ->
  truthy (selectedCaption s) || truthy (topText s) || truthy (bottomText s) = true ->
  exists baseline,
    ctx (exec (drawText measureText s width height)
              (mkCanvas width height defaultContext calls))
    = styled (Math_floor (num_div width 10)) baseline.
Proof.
  intros Hm Hany. unfold drawText, styled, set_lineWidth.
  rewrite Hm. simpl AppMode_eqb. cbv iota.
  rewrite displayText_truthy, Hany.
  set (fontSize := Math_floor (num_div width 10)).
  set (lw := Math_floor (num_div fontSize 8)).
  destruct (truthy (topText s)) eqn:Et; [ | destruct (truthy (bottomText s)) eqn:Eb ].
  - simpl orb. cbv iota. unfold drawManual. rewrite Et.
    destruct (truthy (bottomText s)); destruct (0 <? lw)%Z;
      eexists; unfold exec; simpl; reflexivity.
  - simpl orb. cbv iota. unfold drawManual. rewrite Et, Eb.
    destruct (0 <? lw)%Z; eexists; unfold exec; simpl; reflexivity.
  - rewrite !orb_false_r in Hany. simpl orb. cbv iota. rewrite Hany.
    destruct (0 <? lw)%Z;
      unfold exec, bind, set_font, set_fillStyle, set_strokeStyle,
        set_textAlign, set_textBaseline, modify_ctx; simpl;
      unfold drawMagic, bind, get_ctx, set_textBaseline, modify_ctx, forEach;
      simpl;
      match goal with
      | |- context [wrapLines measureText ?k width (selectedCaption s)] =>
          set (lineArray := wrapLines measureText k width (selectedCaption s))
      end;
      set (y := height - 20 - (Z.of_nat (List.length lineArray) - 1) * fontSize);
      match goal with
      | |- context [forEach_from _ _ _ (mkCanvas _ _ ?kb _)] =>
          rewrite (forEach_from_runs
                     (fun l j => mkRun kb (toUpperCase l) (num_div width 2)
                                       (line_y y j fontSize)))
            by reflexivity
      end;
      eexists; reflexivity.
Qed.

(** [img.onload] starts from a cleared canvas of the fitted dimensions,
    whatever the canvas held. *)
Lemma onload_exec (s : AppState) (img : Image) (c : Canvas) :
  exec (onload measureText s img) c
  = exec (drawText measureText s (fst (fit (img_width img) (img_height img)))
                                 (snd (fit (img_width img) (img_height img))))
         (mkCanvas (fst (fit (img_width img) (img_height img)))
                   (snd (fit (img_width img) (img_height img)))
                   defaultContext
                   [DrawImage img 0 0 (fst (fit (img_width img) (img_height img)))
                                      (snd (fit (img_width img) (img_height img)))]).
Proof.
  unfold onload.
  destruct (fit (img_width img) (img_height img)) as [width height].
  reflexivity.
Qed.

(** The surface after [img.onload]: the canvas has the fitted dimensions and
    holds the image, drawn over all of it, followed by the text runs, each
    outlined and then filled. *)
Lemma onload_canvas (s : AppState) (img : Image) (c : Canvas) :
  let out := exec (onload measureText s img) c in
  let wh := fit (img_width img) (img_height img) in
  canvas_width out = fst wh /\
  canvas_height out = snd wh /\
  painted out = DrawImage img 0 0 (fst wh) (snd wh)
                  :: flat_map paint_run (textRuns measureText s (fst wh) (snd wh)).
Proof.
  simpl. rewrite onload_exec.
  destruct (fit (img_width img) (img_height img)) as [width height].
  simpl fst; simpl snd.
  destruct (drawText_exec s width height [DrawImage img 0 0 width height])
    as [k Hk].
  rewrite Hk. simpl. repeat split.
Qed.

End RenderFacts.

(* ================================================================== *)
(** ** The wrap loop groups whole words *)
(* ================================================================== *)

Lemma str_app_assoc (a b c : string) : (a ++ b) ++ c = a ++ b ++ c.
Proof. induction a as [ | x a IH]; simpl; [ reflexivity | now rewrite IH ]. Qed.

Lemma str_app_length (a b : string) :
  String.length (a ++ b) = (String.length a + String.length b)%nat.
Proof. induction a as [ | x a IH]; simpl; [ reflexivity | now rewrite IH ]. Qed.

Lemma joinWords_snoc (g : list string) (w : string) :
  joinWords (g ++ [w]) = joinWords g ++ w ++ " ".
Proof.
  induction g as [ | v g IH]; simpl; [ reflexivity | ].
  rewrite IH, !str_app_assoc. reflexivity.
Qed.

Lemma joinWords_In (g : list string) (w : string) :
  In w g -> exists a b, joinWords g = a ++ (w ++ " ") ++ b.
Proof.
  induction g as [ | v g IH]; simpl; [ intros [] | ].
  intros [-> | H].
  - exists "", (joinWords g). simpl. rewrite str_app_assoc. reflexivity.
  - destruct (IH H) as (a & b & E).
    exists (v ++ " " ++ a), b. rewrite E, !str_app_assoc. reflexivity.
Qed.

Lemma split_nonempty (sep : ascii) (s : string) : split sep s <> [].
Proof.
  destruct s as [ | c s]; simpl; [ discriminate | ].
  destruct (Ascii.eqb c sep); [ discriminate | ].
  destruct (split sep s); discriminate.
Qed.

Section Wrapping.

Variable measureText : Context2D -> string -> Q.
Variable k : Context2D.
Variable width : Z.

Let fits := within_budget measureText k width.
Let nonempty := fun g : list string => g <> [].

Lemma wrapLoop_groups (words : list string) :
  forall (n : nat) (cur : list string) (done : list (list string)),
    ((0 <? n)%nat = false -> cur = []) ->
    ((0 <? n)%nat = true -> cur <> []) ->
    Forall fits done -> Forall nonempty done ->
    (cur = [] \/ fits cur) ->
    exists groups last,
      wrapLoop measureText k width words n (joinWords cur) (map joinWords done)
        = (joinWords last, map joinWords groups) /\
      List.concat (groups ++ [last])%list = (List.concat done ++ cur ++ words)%list /\
      Forall fits groups /\ Forall nonempty groups /\
      (last = [] \/ fits last) /\
      ((cur ++ words)%list <> [] -> last <> []).
Proof.
  induction words as [ | w words IH]; intros n cur done H0 Hpos Hdone Hne Hcur.
  - exists done, cur. simpl. rewrite List.concat_app. simpl.
    rewrite !app_nil_r. repeat split; auto.
  - simpl.
    destruct (num_gt (measureText k (joinWords cur ++ w ++ " "))
                     (inject_Z (width - 40)) && (0 <? n)%nat) eqn:Ec.
    + apply andb_true_iff in Ec. destruct Ec as [_ En].
      specialize (Hpos En).
      assert (Hfit : fits cur) by (destruct Hcur; [ contradiction | assumption ]).
      destruct (IH (S n) [w] (done ++ [cur])%list) as (groups & last & E & Hc & Hf & Hn & Hl & Hlast).
      * discriminate.
      * discriminate.
      * apply Forall_app. split; [ exact Hdone | constructor; [ exact Hfit | constructor ] ].
      * apply Forall_app. split; [ exact Hne | constructor; [ exact Hpos | constructor ] ].
      * right. right. exists w. reflexivity.
      * exists groups, last. rewrite map_app in E. simpl in E.
        split; [ exact E | ].
        split; [ rewrite Hc, List.concat_app; simpl; rewrite app_nil_r, <- app_assoc;
                 reflexivity | ].
        repeat split; auto. intros _. apply Hlast. discriminate.
    + rewrite <- joinWords_snoc.
      destruct (IH (S n) (cur ++ [w])%list done) as (groups & last & E & Hc & Hf & Hn & Hl & Hlast).
      * discriminate.
      * intros _. destruct cur; discriminate.
      * exact Hdone.
      * exact Hne.
      * right. apply andb_false_iff in Ec. destruct Ec as [Ew | En].
        -- left. rewrite joinWords_snoc. apply num_gt_false. exact Ew.
        -- right. rewrite (H0 En). exists w. reflexivity.
      * exists groups, last. split; [ exact E | ].
        split; [ rewrite Hc, <- !app_assoc; reflexivity | ].
        repeat split; auto. intros _. apply Hlast. destruct cur; discriminate.
Qed.

(** The lines are the words of the caption, in order and whole, cut into
    non-empty groups; a group of two words or more was measured within
    [width - 40]. *)
Lemma wrapLines_groups (caption : string) :
  exists groups : list (list string),
    wrapLines measureText k width caption = map joinWords groups /\
    List.concat groups = split " " caption /\
    Forall nonempty groups /\
    Forall fits groups.
Proof.
  unfold wrapLines.
  assert (Hpos : (0 <? 0)%nat = true -> @nil string <> []) by discriminate.
  destruct (wrapLoop_groups (split " " caption) 0 [] []
              (fun _ => eq_refl) Hpos (Forall_nil _) (Forall_nil _)
              (or_introl eq_refl))
    as (groups & last & E & Hc & Hf & Hn & Hl & Hlast).
  simpl in E. rewrite E. simpl in Hc.
  assert (Hl' : last <> []) by (apply Hlast; apply split_nonempty).
  exists (groups ++ [last])%list.
  split; [ rewrite map_app; reflexivity | ].
  split; [ exact Hc | ].
  split; apply Forall_app; (split; [ assumption | ]); constructor; auto.
  destruct Hl; [ contradiction | assumption ].
Qed.

(** Where wider text never measures narrower, a word wider than the budget
    has its line to itself. *)
Lemma overflowing_word_alone (g : list string) (w : string) :
  (forall a t b, (measureText k t <= measureText k (a ++ t ++ b))%Q) ->
  fits g -> In w g ->
  (inject_Z (width - 40) < measureText k w)%Q \/
  (inject_Z (width - 40) < measureText k (w ++ " "))%Q ->
  g = [w].
Proof.
  intros Hmono [Hle | [v ->]] Hin Hw.
  - exfalso. destruct (joinWords_In g w Hin) as (a & b & E).
    rewrite E in Hle.
    assert (Hsp : (inject_Z (width - 40) < measureText k (w ++ " "))%Q).
    { destruct Hw as [Hw | Hw]; [ | exact Hw ].
      eapply Qlt_le_trans; [ exact Hw | apply (Hmono "" w " ") ]. }
    apply (Qlt_not_le _ _ Hsp).
    eapply Qle_trans; [ apply (Hmono a (w ++ " ") b) | exact Hle ].
  - destruct Hin as [-> | []]. reflexivity.
Qed.

End Wrapping.

Lemma wrapLines_nonempty (measureText : Context2D -> string -> Q)
    (k : Context2D) (width : Z) (caption : string) :
  wrapLines measureText k width caption <> [].
Proof.
  unfold wrapLines.
  destruct (wrapLoop measureText k width (split " " caption) 0 "" [])
    as [line lineArray].
  destruct lineArray; discriminate.
Qed.

(* ================================================================== *)
(** ** The surface: dimensions, mode gate, text styling *)
(* ================================================================== *)

Lemma Math_round_same (w : Z) : 0 < w -> Math_round (num_div (w * 600) w) = 600.
Proof.
  intros Hw. rewrite Math_round_div by exact Hw.
  symmetry. apply Z.div_unique with (r := w); lia.
Qed.

Lemma Math_round_le_600 (a b : Z) :
  a <= b -> 0 < b -> Math_round (num_div (a * 600) b) <= 600.
Proof.
  intros Hab Hb. rewrite Math_round_div by exact Hb.
  assert ((2 * (a * 600) + b) / (2 * b) < 601); [ | lia ].
  apply Z.div_lt_upper_bound; lia.
Qed.

Lemma fit_wide (w h : Z) :
  h <= w -> 600 < w -> fit w h = (600, Math_round (num_div (h * 600) w)).
Proof.
  intros Hhw Hw. unfold fit, maxDim.
  destruct (Z.gtb_spec w 600); [ | lia ]. simpl orb. cbv iota.
  destruct (Z.gtb_spec w h); [ reflexivity | ].
  assert (h = w) by lia. subst h.
  rewrite Math_round_same by lia. reflexivity.
Qed.

Lemma fit_tall (w h : Z) :
  w <= h -> 600 < h -> fit w h = (Math_round (num_div (w * 600) h), 600).
Proof.
  intros Hwh Hh. unfold fit, maxDim.
  destruct (Z.gtb_spec h 600); [ | lia ]. rewrite orb_true_r.
  destruct (Z.gtb_spec w h); [ lia | reflexivity ].
Qed.

Lemma fit_small (w h : Z) : w <= 600 -> h <= 600 -> fit w h = (w, h).
Proof.
  intros Hw Hh. unfold fit, maxDim.
  destruct (Z.gtb_spec w 600); [ lia | ].
  destruct (Z.gtb_spec h 600); [ lia | reflexivity ].
Qed.

(** The divisions of [fit] are by a positive number. *)
Lemma fit_divisor_positive (w h : Z) :
  (w >? maxDim) || (h >? maxDim) = true ->
  if w >? h then 0 < w else 0 < h.
Proof.
  unfold maxDim. intros H. apply orb_true_iff in H.
  destruct (Z.gtb_spec w h); destruct H as [H | H]; apply Z.gtb_lt in H; lia.
Qed.

(** C3.  The surface of an image of [w] x [h] pixels: when [w >= h] and
    [w > 600] it is 600 wide and [Math.round(h * 600 / w)] high; when
    [h >= w] and [h > 600] it is 600 high and [Math.round(w * 600 / h)] wide;
    when neither dimension exceeds 600 it is [w] x [h]; when either does,
    the larger dimension of the surface is 600; and the image is drawn over
    the whole surface. *)
Theorem surface_scaling (measureText : Context2D -> string -> Q)
    (s : AppState) (img : Image) (c : Canvas) :
  let w := img_width img in
  let h := img_height img in
  let out := exec (onload measureText s img) c in
  (h <= w -> 600 < w ->
   canvas_width out = 600 /\
   canvas_height out = Math_round (num_div (h * 600) w)) /\
  (w <= h -> 600 < h ->
   canvas_height out = 600 /\
   canvas_width out = Math_round (num_div (w * 600) h)) /\
  (w <= 600 -> h <= 600 -> canvas_width out = w /\ canvas_height out = h) /\
  (600 < w \/ 600 < h -> Z.max (canvas_width out) (canvas_height out) = 600) /\
  (exists text, painted out
                = DrawImage img 0 0 (canvas_width out) (canvas_height out) :: text).
Proof.
  intros w h out.
  destruct (onload_canvas measureText s img c) as (Hw & Hh & Hp).
  fold out in Hw, Hh, Hp. fold w h in Hw, Hh, Hp.
  repeat split.
  - rewrite Hw, fit_wide by assumption. reflexivity.
  - rewrite Hh, fit_wide by assumption. reflexivity.
  - rewrite Hh, fit_tall by assumption. reflexivity.
  - rewrite Hw, fit_tall by assumption. reflexivity.
  - rewrite Hw, fit_small by assumption. reflexivity.
  - rewrite Hh, fit_small by assumption. reflexivity.
  - intros Hbig. rewrite Hw, Hh.
    destruct (Z_le_gt_dec h w) as [Hle | Hgt].
    + assert (600 < w) by lia. rewrite fit_wide by assumption. simpl.
      pose proof (Math_round_le_600 h w Hle). lia.
    + assert (600 < h) by lia. rewrite fit_tall by lia. simpl.
      pose proof (Math_round_le_600 w h). lia.
  - rewrite Hp, Hw, Hh. eexists. reflexivity.
Qed.

(** The scaling of the scenarios: 800 x 400 gives 600 x 300, and a half
    rounds up. *)
Example fit_800_400 : fit 800 400 = (600, 300).
Proof. reflexivity. Qed.

Example fit_400_800 : fit 400 800 = (300, 600).
Proof. reflexivity. Qed.

Example fit_1200_1 : fit 1200 1 = (600, 1).
Proof. reflexivity. Qed.

Example fit_square : fit 1000 1000 = (600, 600).
Proof. reflexivity. Qed.

Example fit_never_up : fit 320 200 = (320, 200).
Proof. reflexivity. Qed.

Lemma textRuns_off_caption (measureText : Context2D -> string -> Q)
    (s : AppState) (width height : Z) :
  mode s <> CAPTION -> textRuns measureText s width height = [].
Proof. unfold textRuns. destruct (mode s); [ congruence | reflexivity .. ]. Qed.

(** C10.  In the edit and analyze modes the surface is the scaled image
    alone, whatever the caption state; a surface that holds anything else
    was rendered in caption mode. *)
Theorem mode_gated_rendering (measureText : Context2D -> string -> Q)
    (s : AppState) (img : Image) (c : Canvas) :
  let out := exec (onload measureText s img) c in
  (mode s = EDIT \/ mode s = ANALYZE ->
   painted out = [DrawImage img 0 0 (canvas_width out) (canvas_height out)] /\
   (canvas_width out, canvas_height out) = fit (img_width img) (img_height img)) /\
  (painted out <> [DrawImage img 0 0 (canvas_width out) (canvas_height out)] ->
   mode s = CAPTION).
Proof.
  intros out.
  destruct (onload_canvas measureText s img c) as (Hw & Hh & Hp).
  fold out in Hw, Hh, Hp. rewrite Hp, Hw, Hh.
  split.
  - intros Hm. rewrite textRuns_off_caption by (destruct Hm as [-> | ->]; discriminate).
    split; [ reflexivity | ].
    destruct (fit (img_width img) (img_height img)); reflexivity.
  - intros Hne. destruct (mode s) eqn:Em; [ reflexivity | | ];
      exfalso; apply Hne; rewrite textRuns_off_caption by congruence; reflexivity.
Qed.

(** The edit mode, with manual text and a selected caption both set. *)
Example edit_mode_paints_image_only :
  let s := mkApp EDIT (Some "data:image/png;base64,AAAA") false None []
                 "one does not simply" "hello" "world" "" None in
  let img := {| img_src := "data:image/png;base64,AAAA";
                img_width := 800; img_height := 400 |} in
  painted (exec (onload (fixedWidth 30) s img)
                (mkCanvas 300 150 defaultContext []))
  = [DrawImage img 0 0 600 300].
Proof. reflexivity. Qed.

Lemma textRuns_styled (measureText : Context2D -> string -> Q)
    (s : AppState) (width height : Z) :
  Forall (fun r => exists baseline,
              run_st r = styled (Math_floor (num_div width 10)) baseline)
         (textRuns measureText s width height).
Proof.
  unfold textRuns.
  destruct (mode s); try constructor.
  destruct (truthy (topText s) || truthy (bottomText s)).
  - unfold manualRuns.
    destruct (truthy (topText s)), (truthy (bottomText s)); simpl;
      repeat constructor; eexists; reflexivity.
  - destruct (truthy (selectedCaption s)); [ | constructor ].
    unfold magicRuns. apply Forall_map. apply Forall_forall.
    intros li _. eexists. reflexivity.
Qed.

Lemma textRuns_nonempty (measureText : Context2D -> string -> Q)
    (s : AppState) (width height : Z) :
  mode s = CAPTION ->
  truthy (selectedCaption s) || truthy (topText s) || truthy (bottomText s) = true ->
  textRuns measureText s width height <> [].
Proof.
  intros Hm Hany. unfold textRuns. rewrite Hm.
  destruct (truthy (topText s)) eqn:Et; [ | destruct (truthy (bottomText s)) eqn:Eb ].
  - simpl. unfold manualRuns. rewrite Et. discriminate.
  - simpl. unfold manualRuns. rewrite Et, Eb. discriminate.
  - rewrite !orb_false_r in Hany. simpl. rewrite Hany.
    unfold magicRuns. intros E. apply map_eq_nil in E.
    destruct (wrapLines measureText _ width (selectedCaption s)) eqn:El;
      [ exact (wrapLines_nonempty _ _ _ _ El) | discriminate ].
Qed.

Lemma styled_lineWidth (fontSize : Z) (baseline : CanvasTextBaseline) :
  lineWidth (styled fontSize baseline) = Z.max 1 (fontSize / 8).
Proof.
  unfold styled. cbn [lineWidth]. rewrite Math_floor_div.
  destruct (Z.ltb_spec 0 (fontSize / 8)); lia.
Qed.

Lemma any_truthy (a b c : string) :
  a <> "" \/ b <> "" \/ c <> "" -> truthy a || truthy b || truthy c = true.
Proof.
  intros [H | [H | H]]; apply truthy_true in H; rewrite H;
    rewrite ?orb_true_r; reflexivity.
Qed.

(** C5, amended.  Every glyph run on the surface is outlined and then
    filled, in a drawing state whose font is
    [900 <fontSize>px Impact, sans-serif] with [fontSize = floor(width / 10)],
    whose stroke style is black and whose fill style is white; its line width
    is [floor(fontSize / 8)] on a surface at least 80 wide, and the 1 of the
    reset context on a narrower one, where the code assigns 0.  Whenever the
    mode is the caption mode and a caption string is not empty there are such
    runs, and the context is left in that state.  An image of 800 x 400 gives
    a surface of 600 x 300 and a font size of 60, and with "HELLO" and
    "WORLD" the two runs in [900 60px Impact, sans-serif], line width 7. *)
Theorem text_styling (measureText : Context2D -> string -> Q)
    (s : AppState) (img : Image) (c : Canvas) :
  let out := exec (onload measureText s img) c in
  let fontSize := canvas_width out / 10 in
  let styling k :=
    font k = font_of fontSize /\
    lineWidth k = Z.max 1 (fontSize / 8) /\
    strokeStyle k = "black" /\
    fillStyle k = "white" in
  painted out = DrawImage img 0 0 (canvas_width out) (canvas_height out)
                  :: flat_map paint_run (filled (painted out)) /\
  Forall (fun r => styling (run_st r)) (filled (painted out)) /\
  (80 <= canvas_width out ->
   Forall (fun r => lineWidth (run_st r) = fontSize / 8) (filled (painted out))) /\
  (mode s = CAPTION ->
   selectedCaption s <> "" \/ topText s <> "" \/ bottomText s <> "" ->
   filled (painted out) <> [] /\ styling (ctx out)) /\
  (img_width img = 800 -> img_height img = 400 ->
   canvas_width out = 600 /\ canvas_height out = 300 /\ fontSize = 60 /\
   font_of fontSize = "900 60px Impact, sans-serif" /\
   (mode s = CAPTION -> topText s = "HELLO" -> bottomText s = "WORLD" ->
    filled (painted out)
    = [mkRun (mkCtx "900 60px Impact, sans-serif" "white" "black" 7
                     AlignCenter BaselineTop)
             "HELLO" (num_div 600 2) (inject_Z 10);
       mkRun (mkCtx "900 60px Impact, sans-serif" "white" "black" 7
                     AlignCenter BaselineBottom)
             "WORLD" (num_div 600 2) (inject_Z 290)])).
Proof.
  intros out fontSize styling.
  destruct (onload_canvas measureText s img c) as (Hw & Hh & Hp).
  fold out in Hw, Hh, Hp.
  assert (Hf : filled (painted out)
               = textRuns measureText s (canvas_width out) (canvas_height out)).
  { rewrite Hp, Hw, Hh. simpl. apply filled_paint_runs. }
  assert (Hst : forall baseline, styling (styled fontSize baseline)).
  { intros baseline. unfold styling.
    split; [ reflexivity | ].
    split; [ apply styled_lineWidth | split; reflexivity ]. }
  assert (Hruns : Forall (fun r => styling (run_st r)) (filled (painted out))).
  { rewrite Hf.
    eapply Forall_impl; [ | apply textRuns_styled ].
    intros r [baseline ->]. rewrite Math_floor_div. apply Hst. }
  split; [ | split; [ exact Hruns | split; [ | split ] ] ].
  - rewrite Hf. rewrite Hp at 1. rewrite Hw, Hh. reflexivity.
  - intros Hwide. eapply Forall_impl; [ | exact Hruns ].
    intros r (_ & Hl & _). rewrite Hl.
    assert (1 <= fontSize / 8); [ | lia ].
    apply Z.div_le_lower_bound; [ lia | ].
    unfold fontSize. apply Z.div_le_lower_bound; lia.
  - intros Hm Hany. apply any_truthy in Hany. split.
    + rewrite Hf. apply textRuns_nonempty; assumption.
    + unfold out. rewrite onload_exec.
      destruct (drawText_ctx measureText s
                  (fst (fit (img_width img) (img_height img)))
                  (snd (fit (img_width img) (img_height img)))
                  [DrawImage img 0 0
                     (fst (fit (img_width img) (img_height img)))
                     (snd (fit (img_width img) (img_height img)))]
                  Hm Hany) as [baseline E].
      rewrite E, Math_floor_div, <- Hw. apply Hst.
  - intros E8 E4.
    assert (Ew : canvas_width out = 600) by (rewrite Hw, E8, E4; reflexivity).
    assert (Eh : canvas_height out = 300) by (rewrite Hh, E8, E4; reflexivity).
    unfold fontSize. rewrite Ew.
    repeat (split; [ first [ assumption | reflexivity ] | ]).
    intros Hm Ht Hb. rewrite Hf, Ew, Eh.
    unfold textRuns, manualRuns. rewrite Hm, Ht, Hb. reflexivity.
Qed.

(** C5 as stated fails on a surface 79 wide: the font size is 7, the code
    assigns a line width of [floor(7 / 8) = 0], the context keeps 1, and the
    run is outlined with 1. *)
Lemma text_styling_narrow_surface :
  let s := mkApp CAPTION (Some "data:image/png;base64,AAAA") false None []
                 "" "hi" "" "" None in
  let img := {| img_src := "data:image/png;base64,AAAA";
                img_width := 79; img_height := 79 |} in
  let out := exec (onload (fixedWidth 30) s img)
                  (mkCanvas 300 150 defaultContext []) in
  let fontSize := canvas_width out / 10 in
  ~ Forall (fun r => lineWidth (run_st r) = fontSize / 8) (filled (painted out)).
Proof.
  intros s img out fontSize H.
  vm_compute in H. inversion H as [ | r runs Hr _ ]. discriminate.
Qed.

(** The first end-to-end scenario: an image of 800 x 400 with "HELLO" on
    top and "WORLD" at the bottom. *)
Example hello_world (measureText : Context2D -> string -> Q) :
  let s := mkApp CAPTION (Some "data:image/png;base64,AAAA") false None []
                 "" "hello" "world" "" None in
  let img := {| img_src := "data:image/png;base64,AAAA";
                img_width := 800; img_height := 400 |} in
  let k := mkCtx "900 60px Impact, sans-serif" "white" "black" 7 AlignCenter in
  exec (onload measureText s img) (mkCanvas 300 150 defaultContext [])
  = mkCanvas 600 300 (k BaselineBottom)
      [DrawImage img 0 0 600 300;
       StrokeText (k BaselineTop) "HELLO" (num_div 600 2) (inject_Z 10);
       FillText (k BaselineTop) "HELLO" (num_div 600 2) (inject_Z 10);
       StrokeText (k BaselineBottom) "WORLD" (num_div 600 2) (inject_Z 290);
       FillText (k BaselineBottom) "WORLD" (num_div 600 2) (inject_Z 290)].
Proof. reflexivity. Qed.

(* ================================================================== *)
(** ** Manual captions *)
(* ================================================================== *)

(** C4.  In caption mode, a non-empty [topText] is one run, upper-cased,
    centred, its top at 10 from the top edge; a non-empty [bottomText] is one
    run, upper-cased, centred, its bottom at 10 from the bottom edge; an
    empty string gives no run, so [topText] alone gives the top run only and
    [bottomText] alone the bottom run only; nothing else is painted over the
    image. *)
Theorem manual_caption_placement (measureText : Context2D -> string -> Q)
    (s : AppState) (img : Image) (c : Canvas) :
  mode s = CAPTION ->
  let out := exec (onload measureText s img) c in
  let width := canvas_width out in
  let height := canvas_height out in
  let top := mkRun (styled (width / 10) BaselineTop)
                   (toUpperCase (topText s)) (num_div width 2) (inject_Z 10) in
  let bottom := mkRun (styled (width / 10) BaselineBottom)
                      (toUpperCase (bottomText s)) (num_div width 2)
                      (inject_Z (height - 10)) in
  (textAlign (run_st top) = AlignCenter /\
   textBaseline (run_st top) = BaselineTop /\
   textAlign (run_st bottom) = AlignCenter /\
   textBaseline (run_st bottom) = BaselineBottom) /\
  (topText s <> "" \/ bottomText s <> "" ->
   painted out = DrawImage img 0 0 width height
                   :: flat_map paint_run (filled (painted out))) /\
  (topText s <> "" -> bottomText s <> "" -> filled (painted out) = [top; bottom]) /\
  (topText s <> "" -> bottomText s = "" -> filled (painted out) = [top]) /\
  (topText s = "" -> bottomText s <> "" -> filled (painted out) = [bottom]).
Proof.
  intros Hm out width height top bottom.
  destruct (onload_canvas measureText s img c) as (Hw & Hh & Hp).
  fold out in Hw, Hh, Hp.
  assert (Hf : filled (painted out) = textRuns measureText s width height).
  { rewrite Hp. unfold width, height. rewrite Hw, Hh. simpl.
    apply filled_paint_runs. }
  split; [ repeat split | ].
  split.
  { intros _. rewrite Hf. rewrite Hp at 1. unfold width, height.
    rewrite Hw, Hh. reflexivity. }
  rewrite Hf. unfold textRuns, manualRuns. rewrite Hm.
  unfold top, bottom. rewrite <- Math_floor_div.
  split; [ | split ]; intros Ht Hb.
  - apply truthy_true in Ht, Hb. rewrite Ht, Hb. reflexivity.
  - apply truthy_true in Ht. rewrite Ht, Hb. reflexivity.
  - apply truthy_true in Hb. rewrite Ht, Hb. reflexivity.
Qed.

(** C4 at the first scenario, and with each string alone. *)
Lemma manual_caption_placement_witness :
  let img := {| img_src := "data:image/png;base64,AAAA";
                img_width := 800; img_height := 400 |} in
  let c := mkCanvas 300 150 defaultContext [] in
  let session top bottom :=
    mkApp CAPTION (Some "data:image/png;base64,AAAA") false None []
          "" top bottom "" None in
  let k := mkCtx "900 60px Impact, sans-serif" "white" "black" 7 AlignCenter in
  mode (session "hello" "world") = CAPTION /\
  filled (painted (exec (onload (fixedWidth 30) (session "hello" "world") img) c))
  = [mkRun (k BaselineTop) "HELLO" (num_div 600 2) (inject_Z 10);
     mkRun (k BaselineBottom) "WORLD" (num_div 600 2) (inject_Z 290)] /\
  filled (painted (exec (onload (fixedWidth 30) (session "hello" "") img) c))
  = [mkRun (k BaselineTop) "HELLO" (num_div 600 2) (inject_Z 10)] /\
  filled (painted (exec (onload (fixedWidth 30) (session "" "world") img) c))
  = [mkRun (k BaselineBottom) "WORLD" (num_div 600 2) (inject_Z 290)].
Proof.
  intros img c session k.
  assert (Hh : "hello" <> "") by discriminate.
  assert (Hw : "world" <> "") by discriminate.
  destruct (manual_caption_placement (fixedWidth 30) (session "hello" "world")
              img c eq_refl) as (_ & _ & Hboth & _ & _).
  destruct (manual_caption_placement (fixedWidth 30) (session "hello" "")
              img c eq_refl) as (_ & _ & _ & Htop & _).
  destruct (manual_caption_placement (fixedWidth 30) (session "" "world")
              img c eq_refl) as (_ & _ & _ & _ & Hbottom).
  split; [ reflexivity | ].
  split; [ exact (Hboth Hh Hw) | ].
  split; [ exact (Htop Hh eq_refl) | exact (Hbottom eq_refl Hw) ].
Defined.

(* ================================================================== *)
(** ** Magic captions *)
(* ================================================================== *)

Lemma magic_filled (measureText : Context2D -> string -> Q)
    (s : AppState) (img : Image) (c : Canvas) :
  mode s = CAPTION -> topText s = "" -> bottomText s = "" ->
  selectedCaption s <> "" ->
  let out := exec (onload measureText s img) c in
  filled (painted out)
  = magicRuns measureText s (canvas_width out) (canvas_height out).
Proof.
  intros Hm Ht Hb Hs out.
  destruct (onload_canvas measureText s img c) as (Hw & Hh & Hp).
  fold out in Hw, Hh, Hp.
  rewrite Hp, Hw, Hh. simpl. rewrite filled_paint_runs.
  unfold textRuns. rewrite Hm, Ht, Hb. simpl.
  apply truthy_true in Hs. rewrite Hs. reflexivity.
Qed.

Lemma indexed_from_fst {A : Type} (arr : list A) :
  forall i, map fst (indexed_from i arr) = arr.
Proof.
  induction arr as [ | a arr IH]; intros i; simpl; [ | rewrite IH ]; reflexivity.
Qed.

Lemma indexed_from_length {A : Type} (arr : list A) :
  forall i, List.length (indexed_from i arr) = List.length arr.
Proof.
  induction arr as [ | a arr IH]; intros i; simpl; [ | rewrite IH ]; reflexivity.
Qed.

Lemma indexed_from_nth {A : Type} (arr : list A) :
  forall i j li,
    nth_error (indexed_from i arr) j = Some li -> snd li = i + Z.of_nat j.
Proof.
  induction arr as [ | a arr IH]; intros i j li; destruct j as [ | j]; simpl;
    try discriminate.
  - intros [= <-]. simpl. lia.
  - intros H. rewrite (IH _ _ _ H). lia.
Qed.

(** X17.  A selected magic caption with no manual text is cut at its spaces
    into words, and the lines drawn are those words, in order and whole, in
    non-empty groups, each word followed by a space, upper-cased.  A line
    measures [width - 40] at most as the loop measured it, which is before it
    is upper-cased and with its closing space, unless it is a single word.
    Where a text never measures less than a part of it, a word that alone,
    with or without its closing space, measures more than [width - 40] is the
    only word of its line. *)
Theorem magic_caption_wrapping (measureText : Context2D -> string -> Q)
    (s : AppState) (img : Image) (c : Canvas) :
  mode s = CAPTION -> topText s = "" -> bottomText s = "" ->
  selectedCaption s <> "" ->
  let out := exec (onload measureText s img) c in
  let width := canvas_width out in
  let k := styled (width / 10) BaselineTop in
  exists groups : list (list string),
    List.concat groups = split " " (selectedCaption s) /\
    Forall (fun g => g <> []) groups /\
    map run_txt (filled (painted out))
    = map (fun g => toUpperCase (joinWords g)) groups /\
    Forall (fun g => (measureText k (joinWords g) <= inject_Z (width - 40))%Q \/
                     exists w, g = [w]) groups /\
    ((forall a t b, (measureText k t <= measureText k (a ++ t ++ b))%Q) ->
     forall g w, In g groups -> In w g ->
                 (inject_Z (width - 40) < measureText k w)%Q \/
                 (inject_Z (width - 40) < measureText k (w ++ " "))%Q ->
                 g = [w]).
Proof.
  intros Hm Ht Hb Hs out width k.
  pose proof (magic_filled measureText s img c Hm Ht Hb Hs) as Hf.
  fold out in Hf. simpl in Hf.
  destruct (wrapLines_groups measureText k width (selectedCaption s))
    as (groups & Hl & Hc & Hn & Hfit).
  exists groups. split; [ exact Hc | ]. split; [ exact Hn | ].
  split; [ | split; [ exact Hfit | ] ].
  - rewrite Hf. unfold magicRuns. fold width.
    rewrite Math_floor_div. fold k. rewrite Hl.
    rewrite map_map. simpl.
    rewrite <- (map_map fst (fun l => toUpperCase l)).
    rewrite indexed_from_fst. apply map_map.
  - intros Hmono g w Hg Hw Hover.
    apply (overflowing_word_alone measureText k width g w Hmono).
    + rewrite Forall_forall in Hfit. apply Hfit. exact Hg.
    + exact Hw.
    + exact Hover.
Qed.

Lemma fixedWidth_monotone (px : Z) (k : Context2D) (a t b : string) :
  0 <= px -> (fixedWidth px k t <= fixedWidth px k (a ++ t ++ b))%Q.
Proof.
  intros Hpx. unfold fixedWidth. rewrite <- Zle_Qle.
  rewrite !str_app_length. nia.
Qed.

(** A caption of seven words, one of them too long for a line, on a
    surface 600 wide where every character measures 30: the budget is 560,
    eighteen characters. *)
Lemma magic_caption_wrapping_witness :
  let s := mkApp CAPTION (Some "data:image/png;base64,AAAA") false None []
                 "one does not simply pronounce pneumonoultramicroscopic words"
                 "" "" "" None in
  let img := {| img_src := "data:image/png;base64,AAAA";
                img_width := 600; img_height := 600 |} in
  let out := exec (onload (fixedWidth 30) s img)
                  (mkCanvas 300 150 defaultContext []) in
  mode s = CAPTION /\ topText s = "" /\ bottomText s = "" /\
  selectedCaption s <> "" /\
  map run_txt (filled (painted out))
  = ["ONE DOES NOT "; "SIMPLY PRONOUNCE "; "PNEUMONOULTRAMICROSCOPIC "; "WORDS "] /\
  exists groups : list (list string),
    List.concat groups = split " " (selectedCaption s) /\
    map run_txt (filled (painted out))
    = map (fun g => toUpperCase (joinWords g)) groups /\
    (forall g, In g groups ->
               In "pneumonoultramicroscopic" g ->
               g = ["pneumonoultramicroscopic"]).
Proof.
  pose (s := mkApp CAPTION (Some "data:image/png;base64,AAAA") false None []
                   "one does not simply pronounce pneumonoultramicroscopic words"
                   "" "" "" None).
  pose (img := {| img_src := "data:image/png;base64,AAAA";
                  img_width := 600; img_height := 600 |}).
  assert (Hs : selectedCaption s <> "") by discriminate.
  destruct (magic_caption_wrapping (fixedWidth 30) s img
              (mkCanvas 300 150 defaultContext [])
              eq_refl eq_refl eq_refl Hs)
    as (groups & Hc & _ & Ht & _ & Halone).
  repeat (split; [ first [ reflexivity | exact Hs ] | ]).
  exists groups. split; [ exact Hc | split; [ exact Ht | ] ].
  intros g Hg Hw.
  apply (Halone (fun a t b => fixedWidth_monotone 30 _ a t b ltac:(lia))
                g "pneumonoultramicroscopic" Hg Hw).
  left. vm_compute. reflexivity.
Defined.

(** C1 at "hello big world" on a surface 600 wide, where a lower-case
    letter measures 20 and any other character 40.  The loop measures the
    caption as typed: the three words and their spaces measure 380, within
    the budget of 560, and make one line.  The line is drawn upper-cased and
    then measures 640: more than the budget, and than the surface, though it
    is not a single word. *)
Theorem magic_caption_drawn_line_overflows :
  let measureText := fun (_ : Context2D) (t : string) =>
                       inject_Z (caseWidth 20 40 t) in
  let s := mkApp CAPTION (Some "data:image/png;base64,AAAA") false None []
                 "hello big world" "" "" "" None in
  let img := {| img_src := "data:image/png;base64,AAAA";
                img_width := 600; img_height := 600 |} in
  let out := exec (onload measureText s img)
                  (mkCanvas 300 150 defaultContext []) in
  canvas_width out = 600 /\
  split " " (selectedCaption s) = ["hello"; "big"; "world"] /\
  wrapLines measureText (styled 60 BaselineTop) (canvas_width out)
            (selectedCaption s)
  = ["hello big world "] /\
  (measureText (styled 60 BaselineTop) "hello big world "
   <= inject_Z (canvas_width out - 40))%Q /\
  map run_txt (filled (painted out)) = ["HELLO BIG WORLD "] /\
  Forall (fun r => (inject_Z (canvas_width out - 40)
                    < measureText (run_st r) (run_txt r))%Q /\
                   (inject_Z (canvas_width out)
                    < measureText (run_st r) (run_txt r))%Q)
         (filled (painted out)).
Proof.
  intros measureText s img out.
  split; [ reflexivity | ].
  split; [ reflexivity | ].
  split; [ reflexivity | ].
  split; [ vm_compute; discriminate | ].
  split; [ reflexivity | ].
  vm_compute. repeat constructor.
Qed.

(** Line [j] of a magic caption of [n] lines is anchored at
    [height - 20 - (n - 1) * fontSize + j * fontSize * 1.1], by its bottom. *)
Lemma magic_caption_line_y (measureText : Context2D -> string -> Q)
    (s : AppState) (img : Image) (c : Canvas) :
  mode s = CAPTION -> topText s = "" -> bottomText s = "" ->
  selectedCaption s <> "" ->
  let out := exec (onload measureText s img) c in
  let fontSize := canvas_width out / 10 in
  let n := Z.of_nat (List.length (filled (painted out))) in
  forall j r,
    nth_error (filled (painted out)) j = Some r ->
    textBaseline (run_st r) = BaselineBottom /\
    run_y r = line_y (canvas_height out - 20 - (n - 1) * fontSize)
                     (Z.of_nat j) fontSize.
Proof.
  intros Hm Ht Hb Hs out fontSize n j r.
  pose proof (magic_filled measureText s img c Hm Ht Hb Hs) as Hf.
  fold out in Hf. simpl in Hf. unfold n. rewrite Hf.
  unfold magicRuns. rewrite Math_floor_div. fold fontSize.
  rewrite length_map, indexed_from_length.
  intros Hj. rewrite nth_error_map in Hj.
  destruct (nth_error (indexed_from 0 _) j) as [li | ] eqn:E; [ | discriminate ].
  injection Hj as <-. simpl.
  rewrite (indexed_from_nth _ _ _ _ E). split; reflexivity.
Qed.

Lemma inject_Z_sub (x y : Z) : inject_Z (x - y) = (inject_Z x - inject_Z y)%Q.
Proof.
  unfold Z.sub, Qminus. rewrite inject_Z_plus, inject_Z_opp. reflexivity.
Qed.

(** C2 at a caption of three lines on a surface of 600 x 600, every
    character measuring 30: the font size is 60, the lines are anchored by
    their bottom at 460, 526 and 592, each 66 below the one before, and the
    bottom line is 8 above the bottom edge, not 20. *)
Theorem magic_caption_bottom_line_three_lines :
  let s := mkApp CAPTION (Some "data:image/png;base64,AAAA") false None []
                 "one does not simply walk into mordor" "" "" "" None in
  let img := {| img_src := "data:image/png;base64,AAAA";
                img_width := 600; img_height := 600 |} in
  let out := exec (onload (fixedWidth 30) s img)
                  (mkCanvas 300 150 defaultContext []) in
  canvas_height out = 600 /\
  map run_txt (filled (painted out))
  = ["ONE DOES NOT "; "SIMPLY WALK INTO "; "MORDOR "] /\
  Forall (fun r => textBaseline (run_st r) = BaselineBottom)
         (filled (painted out)) /\
  Forall2 Qeq (map run_y (filled (painted out)))
          [inject_Z 460; inject_Z 526; inject_Z 592] /\
  (forall r, nth_error (filled (painted out)) 2 = Some r ->
             ~ (run_y r == inject_Z (canvas_height out - 20))%Q).
Proof.
  intros s img out.
  split; [ reflexivity | ].
  split; [ reflexivity | ].
  split; [ vm_compute; repeat constructor | ].
  split; [ vm_compute; repeat constructor | ].
  intros r Hr. vm_compute in Hr. injection Hr as <-.
  intros E. vm_compute in E. discriminate.
Qed.

(* ================================================================== *)
(** ** Re-rendering *)
(* ================================================================== *)

Section SameMeasurements.

Variables measureText1 measureText2 : Context2D -> string -> Q.
Hypothesis same_widths : forall k t, (measureText1 k t == measureText2 k t)%Q.

Lemma wrapLoop_ext (k : Context2D) (width : Z) (words : list string) :
  forall n line lineArray,
    wrapLoop measureText1 k width words n line lineArray
    = wrapLoop measureText2 k width words n line lineArray.
Proof.
  induction words as [ | w words IH]; intros n line lineArray; simpl.
  - reflexivity.
  - rewrite (num_gt_compat _ _ _ (same_widths k (line ++ w ++ " "))).
    destruct (num_gt _ _ && _); apply IH.
Qed.

Lemma wrapLines_ext (k : Context2D) (width : Z) (caption : string) :
  wrapLines measureText1 k width caption = wrapLines measureText2 k width caption.
Proof. unfold wrapLines. rewrite wrapLoop_ext. reflexivity. Qed.

Lemma bind_ext {A B : Type} (m : Draw A) (k1 k2 : A -> Draw B) (c : Canvas) :
  (forall a c', k1 a c' = k2 a c') -> bind m k1 c = bind m k2 c.
Proof. intros H. unfold bind. destruct (m c). apply H. Qed.

Lemma drawMagic_ext (s : AppState) (width height fontSize : Z) (c : Canvas) :
  drawMagic measureText1 s width height fontSize c
  = drawMagic measureText2 s width height fontSize c.
Proof.
  unfold drawMagic. apply bind_ext. intros k c'.
  rewrite wrapLines_ext. reflexivity.
Qed.

Lemma drawText_ext (s : AppState) (width height : Z) (c : Canvas) :
  drawText measureText1 s width height c = drawText measureText2 s width height c.
Proof.
  unfold drawText.
  destruct (AppMode_eqb (mode s) CAPTION); [ | reflexivity ].
  destruct (truthy (or_else _ _)); [ | reflexivity ].
  destruct (truthy (topText s) || truthy (bottomText s)); [ reflexivity | ].
  destruct (truthy (selectedCaption s)); [ | reflexivity ].
  do 6 (apply bind_ext; intros ? ?).
  apply drawMagic_ext.
Qed.

Lemma onload_ext (s : AppState) (img : Image) (c1 c2 : Canvas) :
  exec (onload measureText1 s img) c1 = exec (onload measureText2 s img) c2.
Proof.
  rewrite !onload_exec. unfold exec. rewrite drawText_ext. reflexivity.
Qed.

End SameMeasurements.

Lemma onload_idempotent (measureText : Context2D -> string -> Q)
    (s : AppState) (img : Image) (c : Canvas) :
  exec (onload measureText s img) (exec (onload measureText s img) c)
  = exec (onload measureText s img) c.
Proof. rewrite !onload_exec. reflexivity. Qed.

(** C7.  The surface after a render is the same whatever the canvas held
    before and whichever of two measurements that agree on every text is
    used; rendering again with the same session and image leaves the surface
    as it is.  The same holds for the effect, given the browser's decoding of
    the image source. *)
Theorem render_deterministic (measureText1 measureText2 : Context2D -> string -> Q)
    (decode : string -> option Image)
    (s : AppState) (img : Image) (c1 c2 : Canvas) (canvas : option Canvas) :
  (forall k t, (measureText1 k t == measureText2 k t)%Q) ->
  exec (onload measureText1 s img) c1 = exec (onload measureText2 s img) c2 /\
  exec (onload measureText1 s img) (exec (onload measureText1 s img) c1)
  = exec (onload measureText1 s img) c1 /\
  renderEffect measureText1 decode s canvas
  = renderEffect measureText2 decode s canvas /\
  renderEffect measureText1 decode s (renderEffect measureText1 decode s canvas)
  = renderEffect measureText1 decode s canvas.
Proof.
  intros Hsame.
  split; [ apply onload_ext; exact Hsame | ].
  split; [ apply onload_idempotent | ].
  unfold renderEffect.
  destruct canvas as [c | ]; [ | split; reflexivity ].
  destruct (has_image s); [ | split; reflexivity ].
  destruct (imageSrc s) as [src | ]; [ | split; reflexivity ].
  destruct (decode src) as [i | ]; [ | split; reflexivity ].
  split; f_equal.
  - apply onload_ext. exact Hsame.
  - apply onload_idempotent.
Qed.

Lemma fixedWidth_commuted (px : Z) (k : Context2D) (t : string) :
  (fixedWidth px k t == inject_Z (Z.of_nat (String.length t) * px))%Q.
Proof. unfold fixedWidth. rewrite Z.mul_comm. reflexivity. Qed.

(** C7 at a magic caption of three lines, rendered over a blank canvas with
    one measurement and over a painted one with another that agrees with
    it. *)
Lemma render_deterministic_witness :
  let s := mkApp CAPTION (Some "data:image/png;base64,AAAA") false None []
                 "one does not simply walk into mordor" "" "" "" None in
  let img := {| img_src := "data:image/png;base64,AAAA";
                img_width := 800; img_height := 400 |} in
  let blank := mkCanvas 300 150 defaultContext [] in
  let used := mkCanvas 600 600 (styled 60 BaselineBottom)
                       [FillText (styled 60 BaselineBottom) "OLD"
                                 (num_div 600 2) (inject_Z 580)] in
  let measureText2 := fun (k : Context2D) (t : string) =>
                        inject_Z (Z.of_nat (String.length t) * 30) in
  (forall k t, (fixedWidth 30 k t == measureText2 k t)%Q) /\
  exec (onload (fixedWidth 30) s img) blank = exec (onload measureText2 s img) used /\
  List.length (painted (exec (onload (fixedWidth 30) s img) blank)) = 7%nat.
Proof.
  intros s img blank used measureText2.
  assert (Hsame : forall k t, (fixedWidth 30 k t == measureText2 k t)%Q)
    by (intros k t; apply fixedWidth_commuted).
  split; [ exact Hsame | ].
  split; [ | reflexivity ].
  exact (proj1 (render_deterministic (fixedWidth 30) measureText2
                  (fun _ => Some img) s img blank used (Some blank) Hsame)).
Defined.

(* ================================================================== *)
(** ** More on the session *)
(* ================================================================== *)

Lemma step_mode (s : AppState) (e : Event) :
  mode (step s e) = match e with TabClick m => m | _ => mode s end.
Proof.
  destruct e; simpl; try reflexivity.
  - unfold handleFileUpload_onload.
    destruct result as [r | ]; [ destruct (truthy r) | ]; reflexivity.
  - destruct (has_image s); reflexivity.
  - destruct r; reflexivity.
  - destruct (has_image s && truthy (editPrompt s)); reflexivity.
  - destruct r; reflexivity.
  - destruct (has_image s); reflexivity.
  - destruct r; reflexivity.
Qed.

(** X1.  Only the tabs change the mode: after any events the mode is the one of
    the last tab clicked, and the mode before them when no tab was clicked;
    loading an image, resetting and the AI actions keep it. *)
Theorem mode_follows_tabs (events : list Event) (s : AppState) :
  mode (run events s) = lastTab events (mode s).
Proof.
  unfold run, lastTab. revert s.
  induction events as [ | e events IH]; intros s; simpl; [ reflexivity | ].
  rewrite IH, step_mode. reflexivity.
Qed.

Lemma try_catch_finally_error {A : Type} (ok : A -> AppState -> AppState)
    (fallback : string) (r : Settled A) (s : AppState) :
  fallback <> "" ->
  (forall a s0, error (ok a s0) = error s0) ->
  error_wellformed s ->
  error_wellformed (try_catch_finally ok fallback r s).
Proof.
  intros Hf Hok Hs. unfold error_wellformed, try_catch_finally.
  destruct r as [a | message]; simpl.
  - rewrite Hok. exact Hs.
  - apply message_or_truthy. exact Hf.
Qed.

Lemma step_error_wellformed (s : AppState) (e : Event) :
  error_wellformed s -> error_wellformed (step s e).
Proof.
  intros H. destruct e; simpl; try exact H; try exact I.
  - unfold handleFileUpload_onload.
    destruct result as [r | ]; [ destruct (truthy r) | ]; try exact H. exact I.
  - discriminate.
  - destruct (has_image s); [ exact I | exact H ].
  - apply try_catch_finally_error; [ discriminate | reflexivity | exact H ].
  - destruct (has_image s && truthy (editPrompt s)); [ exact I | exact H ].
  - apply try_catch_finally_error; [ discriminate | reflexivity | exact H ].
  - destruct (has_image s); [ exact I | exact H ].
  - apply try_catch_finally_error; [ discriminate | reflexivity | exact H ].
Qed.

(** X2.  After any events from the initial session the error is null or a
    non-empty message, so the error box of the workspace shows exactly the
    error of the session. *)
Theorem error_never_empty (events : list Event) :
  error_wellformed (run events initialState) /\
  (has_image (run events initialState) = true ->
   errorBox (run events initialState) = error (run events initialState)).
Proof.
  assert (H : forall s, error_wellformed s -> error_wellformed (run events s)).
  { unfold run. induction events as [ | e events IH]; intros s Hs; simpl.
    - exact Hs.
    - apply IH. apply step_error_wellformed. exact Hs. }
  specialize (H initialState I).
  split; [ exact H | ].
  intros Himg. unfold errorBox. rewrite Himg.
  unfold error_wellformed in H.
  destruct (error (run events initialState)) as [m | ]; [ | reflexivity ].
  apply truthy_true in H. rewrite H. reflexivity.
Qed.

(** X3.  A resolved AI action changes its own slot and nothing else of the
    session: the captions for the magic caption, the analysis for the
    analysis, the image and the edit prompt (emptied) for the edit, which
    keeps the captions, the selection and the manual text of the image it
    replaces.  The error is null and the busy flag is off afterwards. *)
Theorem ai_success_frame (s : AppState) :
  has_image s = true ->
  (forall suggestions,
      let s' := handleMagicCaption (Resolved suggestions) s in
      captions s' = suggestions /\ error s' = None /\ isLoading s' = false /\
      mode s' = mode s /\ imageSrc s' = imageSrc s /\
      selectedCaption s' = selectedCaption s /\ topText s' = topText s /\
      bottomText s' = bottomText s /\ editPrompt s' = editPrompt s /\
      analysis s' = analysis s) /\
  (forall result,
      let s' := handleAnalyzeImage (Resolved result) s in
      analysis s' = Some result /\ error s' = None /\ isLoading s' = false /\
      mode s' = mode s /\ imageSrc s' = imageSrc s /\
      captions s' = captions s /\
      selectedCaption s' = selectedCaption s /\ topText s' = topText s /\
      bottomText s' = bottomText s /\ editPrompt s' = editPrompt s) /\
  (forall newImageBase64,
      editPrompt s <> "" ->
      let s' := handleEditImage (Resolved newImageBase64) s in
      imageSrc s' = Some newImageBase64 /\ editPrompt s' = "" /\
      error s' = None /\ isLoading s' = false /\
      mode s' = mode s /\ captions s' = captions s /\
      selectedCaption s' = selectedCaption s /\ topText s' = topText s /\
      bottomText s' = bottomText s /\ analysis s' = analysis s).
Proof.
  intros Himg.
  unfold handleMagicCaption, handleAnalyzeImage, handleEditImage.
  rewrite Himg. simpl negb. cbv iota.
  split; [ | split ].
  - intros suggestions. simpl. repeat split.
  - intros result. simpl. repeat split.
  - intros x Hp. apply truthy_true in Hp. rewrite Hp. simpl. repeat split.
Qed.

(** A successful edit on a session that carries captions, a selection and
    an analysis. *)
Lemma ai_success_frame_witness :
  let s := mkApp EDIT (Some "data:image/png;base64,AAAA") false
                 (Some "Failed to edit image")
                 [ {| text := "so true"; category := Relatable |} ]
                 "so true" "" "" "make it vintage"
                 (Some {| description := "a dog"; tags := ["dog"] |}) in
  has_image s = true /\
  imageSrc (handleEditImage (Resolved "data:image/png;base64,BBBB") s)
  = Some "data:image/png;base64,BBBB" /\
  captions (handleEditImage (Resolved "data:image/png;base64,BBBB") s)
  = captions s /\
  selectedCaption (handleEditImage (Resolved "data:image/png;base64,BBBB") s)
  = "so true".
Proof.
  intros s.
  destruct (ai_success_frame s eq_refl) as (_ & _ & He).
  assert (Hp : editPrompt s <> "") by discriminate.
  destruct (He "data:image/png;base64,BBBB" Hp)
    as (H1 & _ & _ & _ & _ & H2 & H3 & _).
  split; [ reflexivity | ].
  split; [ exact H1 | split; [ exact H2 | exact H3 ] ].
Defined.

Lemma run_app (events events' : list Event) (s : AppState) :
  run (events ++ events') s = run events' (run events s).
Proof. unfold run. apply fold_left_app. Qed.

(** X4.  There is no cancellation: a response is applied when it arrives,
    whatever happened since the action was started.  Resolved captions
    replace the captions and a resolved edit replaces the image even when
    the image was changed or dropped in between; captions that resolve
    after a new image was read end up beside that image. *)
Theorem late_response_applied (s : AppState) (between : list Event) :
  (forall suggestions,
      let s' := run (MagicCaptionClick :: between
                       ++ [MagicCaptionSettled (Resolved suggestions)]) s in
      captions s' = suggestions /\
      imageSrc s' = imageSrc (run (MagicCaptionClick :: between) s)) /\
  (forall newImageBase64,
      let s' := run (EditImageClick :: between
                       ++ [EditImageSettled (Resolved newImageBase64)]) s in
      imageSrc s' = Some newImageBase64) /\
  (forall suggestions dataUrl,
      dataUrl <> "" ->
      let s' := run [MagicCaptionClick; FileRead (Some dataUrl);
                     MagicCaptionSettled (Resolved suggestions)] s in
      imageSrc s' = Some dataUrl /\ captions s' = suggestions).
Proof.
  split; [ | split ].
  - intros suggestions. cbv zeta.
    change (MagicCaptionClick
              :: between ++ [MagicCaptionSettled (Resolved suggestions)])%list
      with ((MagicCaptionClick :: between)
              ++ [MagicCaptionSettled (Resolved suggestions)])%list.
    rewrite run_app. split; reflexivity.
  - intros x. cbv zeta.
    change (EditImageClick :: between ++ [EditImageSettled (Resolved x)])%list
      with ((EditImageClick :: between) ++ [EditImageSettled (Resolved x)])%list.
    rewrite run_app. reflexivity.
  - intros suggestions dataUrl Hd. apply truthy_true in Hd.
    unfold run. simpl. unfold handleFileUpload_onload. rewrite Hd.
    split; reflexivity.
Qed.

(** X5.  When fetching a template fails, the error is "Failed to load template",
    the busy flag is off and the rest of the session is as it was; the
    message is not displayed, since the error box belongs to the workspace
    and there is no image, and the next image read resets the error.  A file
    read that gives nothing leaves the session as it is. *)
Theorem loader_failure (s : AppState) (message : option string) :
  has_image s = false ->
  let s' := selectTemplate (Rejected message) s in
  error s' = Some "Failed to load template" /\
  isLoading s' = false /\
  same_session s s' /\
  errorBox s' = None /\
  (forall dataUrl, errorBox (handleFileUpload_onload (Some dataUrl) s') = None) /\
  (forall result, errorBox (selectTemplate (Resolved result) s') = None) /\
  handleFileUpload_onload None s = s /\
  handleFileUpload_onload (Some "") s = s.
Proof.
  intros Himg. simpl.
  split; [ reflexivity | ]. split; [ reflexivity | ].
  split; [ unfold same_session; simpl; repeat split | ].
  split.
  { unfold errorBox, has_image in *. simpl. rewrite Himg. reflexivity. }
  split.
  { intros dataUrl. unfold handleFileUpload_onload.
    destruct (truthy dataUrl) eqn:E.
    - unfold errorBox, has_image. simpl. rewrite E. reflexivity.
    - unfold errorBox, has_image in *. simpl. rewrite Himg. reflexivity. }
  split.
  { intros result. unfold errorBox, has_image. simpl.
    destruct result as [r | ]; [ destruct (truthy r) | ]; reflexivity. }
  split; reflexivity.
Qed.

(** A template that fails to load on the empty start screen. *)
Lemma loader_failure_witness :
  has_image initialState = false /\
  error (selectTemplate (Rejected (Some "NetworkError")) initialState)
  = Some "Failed to load template" /\
  errorBox (selectTemplate (Rejected (Some "NetworkError")) initialState) = None /\
  imageSrc (selectTemplate (Rejected (Some "NetworkError")) initialState) = None.
Proof.
  destruct (loader_failure initialState (Some "NetworkError") eq_refl)
    as (H1 & _ & _ & H2 & _).
  split; [ reflexivity | ].
  split; [ exact H1 | split; [ exact H2 | reflexivity ] ].
Defined.

(* ================================================================== *)
(** ** More on the surface *)
(* ================================================================== *)

Lemma Math_round_bounds (a b : Z) :
  0 < b ->
  2 * b * Math_round (num_div a b) <= 2 * a + b < 2 * b * Math_round (num_div a b) + 2 * b.
Proof.
  intros Hb. rewrite Math_round_div by exact Hb.
  pose proof (Z.div_mod (2 * a + b) (2 * b)).
  pose proof (Z.mod_pos_bound (2 * a + b) (2 * b)).
  lia.
Qed.

Lemma fit_cases (w h : Z) :
  (600 < w /\ h <= w /\ fit w h = (600, Math_round (num_div (h * 600) w))) \/
  (600 < h /\ w <= h /\ fit w h = (Math_round (num_div (w * 600) h), 600)) \/
  (w <= 600 /\ h <= 600 /\ fit w h = (w, h)).
Proof.
  destruct (Z_le_gt_dec w 600), (Z_le_gt_dec h 600).
  - right. right. auto using fit_small.
  - right. left. split; [ lia | split; [ lia | apply fit_tall; lia ] ].
  - left. split; [ lia | split; [ lia | apply fit_wide; lia ] ].
  - destruct (Z_le_gt_dec h w).
    + left. split; [ lia | split; [ lia | apply fit_wide; lia ] ].
    + right. left. split; [ lia | split; [ lia | apply fit_tall; lia ] ].
Qed.

Lemma fit_bounds (w h : Z) :
  0 <= w -> 0 <= h ->
  0 <= fst (fit w h) <= 600 /\ 0 <= snd (fit w h) <= 600 /\
  fst (fit w h) <= w /\ snd (fit w h) <= h.
Proof.
  intros Hw Hh.
  destruct (fit_cases w h) as [(H1 & H2 & E) | [(H1 & H2 & E) | (H1 & H2 & E)]];
    rewrite E; simpl.
  - pose proof (Math_round_bounds (h * 600) w). nia.
  - pose proof (Math_round_bounds (w * 600) h). nia.
  - lia.
Qed.

(** X6.  The surface of an image with non-negative dimensions is at most 600 by
    600 and no larger than the image in either dimension; it is at least as
    wide as high when the image is, and fitting it again leaves it as it
    is. *)
Theorem surface_within_bounds (measureText : Context2D -> string -> Q)
    (s : AppState) (img : Image) (c : Canvas) :
  0 <= img_width img -> 0 <= img_height img ->
  let out := exec (onload measureText s img) c in
  0 <= canvas_width out <= 600 /\
  0 <= canvas_height out <= 600 /\
  canvas_width out <= img_width img /\
  canvas_height out <= img_height img /\
  (img_height img <= img_width img -> canvas_height out <= canvas_width out) /\
  (img_width img <= img_height img -> canvas_width out <= canvas_height out) /\
  fit (canvas_width out) (canvas_height out) = (canvas_width out, canvas_height out).
Proof.
  intros Hw Hh out.
  destruct (onload_canvas measureText s img c) as (Ew & Eh & _).
  fold out in Ew, Eh. rewrite Ew, Eh.
  destruct (fit_bounds _ _ Hw Hh) as (B1 & B2 & B3 & B4).
  repeat (split; [ assumption || lia | ]).
  split; [ | split ].
  - intros Hle.
    destruct (fit_cases (img_width img) (img_height img))
      as [(H1 & H2 & E) | [(H1 & H2 & E) | (H1 & H2 & E)]];
      rewrite E in *; simpl in *; try lia.
    assert (img_height img = img_width img) by lia.
    rewrite H, Math_round_same by lia. lia.
  - intros Hle.
    destruct (fit_cases (img_width img) (img_height img))
      as [(H1 & H2 & E) | [(H1 & H2 & E) | (H1 & H2 & E)]];
      rewrite E in *; simpl in *; try lia.
    assert (img_height img = img_width img) by lia.
    rewrite H, Math_round_same by lia. lia.
  - apply fit_small; lia.
Qed.

(** A panorama of 4000 x 1000. *)
Lemma surface_within_bounds_witness :
  let img := {| img_src := "data:image/png;base64,AAAA";
                img_width := 4000; img_height := 1000 |} in
  let out := exec (onload (fixedWidth 30) initialState img)
                  (mkCanvas 300 150 defaultContext []) in
  0 <= img_width img /\ 0 <= img_height img /\
  canvas_width out = 600 /\ canvas_height out = 150 /\
  fit (canvas_width out) (canvas_height out) = (canvas_width out, canvas_height out).
Proof.
  intros img out.
  assert (Hw : 0 <= img_width img) by (simpl; lia).
  assert (Hh : 0 <= img_height img) by (simpl; lia).
  destruct (surface_within_bounds (fixedWidth 30) initialState img
              (mkCanvas 300 150 defaultContext []) Hw Hh)
    as (_ & _ & _ & _ & _ & _ & E).
  split; [ exact Hw | split; [ exact Hh | ] ].
  split; [ reflexivity | split; [ reflexivity | exact E ] ].
Defined.

(** X7.  When an image is scaled down, the shorter side of the surface is within
    half a pixel of the exact uniform scaling: twice its distance to
    [h * 600 / w], times [w], is at most [w]; and the same with the sides
    exchanged. *)
Theorem surface_scaling_precision (measureText : Context2D -> string -> Q)
    (s : AppState) (img : Image) (c : Canvas) :
  let w := img_width img in
  let h := img_height img in
  let out := exec (onload measureText s img) c in
  (600 < w -> h <= w ->
   - w < 2 * (canvas_height out * w - h * 600) <= w) /\
  (600 < h -> w <= h ->
   - h < 2 * (canvas_width out * h - w * 600) <= h).
Proof.
  intros w h out.
  destruct (onload_canvas measureText s img c) as (Ew & Eh & _).
  fold out in Ew, Eh. fold w h in Ew, Eh.
  split; intros H1 H2.
  - rewrite Eh, fit_wide by assumption. cbn [snd].
    assert (Hp : 0 < w) by lia.
    pose proof (Math_round_bounds (h * 600) w Hp) as B.
    set (r := Math_round (num_div (h * 600) w)) in *. clearbody r. nia.
  - rewrite Ew, fit_tall by assumption. cbn [fst].
    assert (Hp : 0 < h) by lia.
    pose proof (Math_round_bounds (w * 600) h Hp) as B.
    set (r := Math_round (num_div (w * 600) h)) in *. clearbody r. nia.
Qed.

(** X8.  The scaled side of the surface of an image with positive dimensions is
    at least one pixel exactly when the image is at most 1200 times longer
    than it is short; beyond that the canvas has a side of 0. *)
Theorem surface_side_positive (measureText : Context2D -> string -> Q)
    (s : AppState) (img : Image) (c : Canvas) :
  0 < img_width img -> 0 < img_height img ->
  let w := img_width img in
  let h := img_height img in
  let out := exec (onload measureText s img) c in
  (600 < w -> h <= w -> (0 < canvas_height out <-> w <= 1200 * h)) /\
  (600 < h -> w <= h -> (0 < canvas_width out <-> h <= 1200 * w)) /\
  (w <= 1200 * h -> h <= 1200 * w ->
   0 < canvas_width out /\ 0 < canvas_height out).
Proof.
  intros Hw Hh w h out.
  destruct (onload_canvas measureText s img c) as (Ew & Eh & _).
  fold out in Ew, Eh. fold w h in Ew, Eh, Hw, Hh.
  assert (Hpos : forall a b, 0 < a -> 0 < b ->
            (0 < Math_round (num_div (a * 600) b) <-> b <= 1200 * a)).
  { intros a b Ha Hb.
    pose proof (Math_round_bounds (a * 600) b Hb) as B.
    set (r := Math_round (num_div (a * 600) b)) in *. clearbody r.
    split; intros H.
    - assert (b <= b * r) by nia. lia.
    - destruct (Z_le_gt_dec r 0) as [Hr | Hr]; [ | lia ].
      assert (b * r <= 0) by nia. lia. }
  split; [ | split ].
  - intros H1 H2. rewrite Eh, fit_wide by assumption. cbn [snd].
    apply Hpos; assumption.
  - intros H1 H2. rewrite Ew, fit_tall by assumption. cbn [fst].
    apply Hpos; assumption.
  - intros H1 H2. rewrite Ew, Eh.
    destruct (fit_cases w h) as [(A & B & E) | [(A & B & E) | (A & B & E)]];
      rewrite E; cbn [fst snd].
    + split; [ lia | apply Hpos; assumption ].
    + split; [ apply Hpos; assumption | lia ].
    + lia.
Qed.

(** A strip of 1201 x 1 gives a canvas of height 0; 1200 x 1 gives height 1. *)
Lemma surface_side_positive_witness :
  let strip n := {| img_src := "data:image/png;base64,AAAA";
                    img_width := n; img_height := 1 |} in
  let out n := exec (onload (fixedWidth 30) initialState (strip n))
                    (mkCanvas 300 150 defaultContext []) in
  0 < img_width (strip 1201) /\ 0 < img_height (strip 1201) /\
  canvas_height (out 1201) = 0 /\ canvas_height (out 1200) = 1 /\
  (0 < canvas_height (out 1200) <-> 1200 <= 1200 * 1).
Proof.
  intros strip out.
  assert (Hw : 0 < img_width (strip 1200)) by (simpl; lia).
  assert (Hh : 0 < img_height (strip 1200)) by (simpl; lia).
  destruct (surface_side_positive (fixedWidth 30) initialState (strip 1200)
              (mkCanvas 300 150 defaultContext []) Hw Hh) as (H & _).
  split; [ simpl; lia | split; [ simpl; lia | ] ].
  split; [ reflexivity | split; [ reflexivity | ] ].
  apply H; simpl; lia.
Defined.

(* ================================================================== *)
(** ** More on what is drawn *)
(* ================================================================== *)

Lemma onload_same_inputs (measureText : Context2D -> string -> Q)
    (s s' : AppState) (img : Image) (c : Canvas) :
  selectedCaption s' = selectedCaption s ->
  topText s' = topText s ->
  bottomText s' = bottomText s ->
  mode s' = mode s ->
  onload measureText s' img c = onload measureText s img c.
Proof.
  intros Hs Ht Hb Hm.
  unfold onload, drawText, drawManual, drawMagic.
  rewrite Hs, Ht, Hb, Hm. reflexivity.
Qed.

(** X9.  The dependency list of the effect is complete: two sessions with the
    same image source, selected caption, manual strings and mode give the
    same surface, whatever the busy flag, the error, the captions, the edit
    prompt and the analysis are. *)
Theorem effect_dependencies (measureText : Context2D -> string -> Q)
    (decode : string -> option Image) (s s' : AppState)
    (canvas : option Canvas) :
  imageSrc s' = imageSrc s ->
  selectedCaption s' = selectedCaption s ->
  topText s' = topText s ->
  bottomText s' = bottomText s ->
  mode s' = mode s ->
  renderEffect measureText decode s' canvas
  = renderEffect measureText decode s canvas.
Proof.
  intros Hi Hs Ht Hb Hm.
  unfold renderEffect, has_image, exec. rewrite Hi.
  destruct canvas as [c | ]; [ | reflexivity ].
  destruct (imageSrc s) as [src | ]; [ | reflexivity ].
  destruct (truthy src); [ | reflexivity ].
  destruct (decode src) as [img | ]; [ | reflexivity ].
  rewrite (onload_same_inputs measureText s s' img c Hs Ht Hb Hm).
  reflexivity.
Qed.

(** New suggestions, a failed analysis and a typed edit prompt leave the
    surface alone. *)
Lemma effect_dependencies_witness :
  let s := mkApp CAPTION (Some "data:image/png;base64,AAAA") false None []
                 "one does not simply walk into mordor" "" "" "" None in
  let s' := step (step (step s (MagicCaptionSettled
                                 (Resolved [ {| text := "so true";
                                                category := Relatable |} ])))
                       (AnalyzeImageSettled (Rejected None)))
                 (EditPromptChange "make it vintage") in
  let decode := fun src => Some {| img_src := src; img_width := 800;
                                   img_height := 400 |} in
  let canvas := Some (mkCanvas 300 150 defaultContext []) in
  s' <> s /\
  mode s' = mode s /\
  renderEffect (fixedWidth 30) decode s' canvas
  = renderEffect (fixedWidth 30) decode s canvas.
Proof.
  intros s s' decode canvas.
  split; [ discriminate | ].
  split; [ reflexivity | ].
  exact (effect_dependencies (fixedWidth 30) decode s s' canvas
           eq_refl eq_refl eq_refl eq_refl eq_refl).
Defined.

(** X10.  Text is drawn exactly when the mode is the caption mode and one of the
    selected caption and the two manual strings is not empty. *)
Theorem text_drawn_iff (measureText : Context2D -> string -> Q)
    (s : AppState) (img : Image) (c : Canvas) :
  let out := exec (onload measureText s img) c in
  filled (painted out) <> [] <->
  mode s = CAPTION /\
  (selectedCaption s <> "" \/ topText s <> "" \/ bottomText s <> "").
Proof.
  intros out.
  destruct (onload_canvas measureText s img c) as (_ & _ & Hp).
  fold out in Hp. rewrite Hp. simpl. rewrite filled_paint_runs.
  unfold textRuns.
  destruct (mode s); [ | split; [ congruence | intros [? _]; discriminate ] .. ].
  destruct (truthy (topText s)) eqn:Et;
    [ | destruct (truthy (bottomText s)) eqn:Eb;
        [ | destruct (truthy (selectedCaption s)) eqn:Es ] ]; simpl.
  - unfold manualRuns. rewrite Et. apply truthy_true in Et.
    split; [ auto | intros _; discriminate ].
  - unfold manualRuns. rewrite Et, Eb. apply truthy_true in Eb.
    split; [ auto | intros _; discriminate ].
  - apply truthy_true in Es.
    split; [ auto | intros _ ].
    unfold magicRuns. intros E. apply map_eq_nil in E.
    apply (f_equal (@List.length _)) in E.
    rewrite indexed_from_length in E.
    apply length_zero_iff_nil in E.
    exact (wrapLines_nonempty _ _ _ _ E).
  - apply truthy_false in Et, Eb, Es.
    split; [ congruence | ].
    intros [_ [H | [H | H]]]; contradiction.
Qed.

Lemma manualRuns_texts (s : AppState) (width height : Z) :
  map run_txt (manualRuns s width height)
  = ((if truthy (topText s) then [toUpperCase (topText s)] else [])
       ++ (if truthy (bottomText s) then [toUpperCase (bottomText s)] else []))%list.
Proof.
  unfold manualRuns.
  destruct (truthy (topText s)), (truthy (bottomText s)); reflexivity.
Qed.

Lemma handleEditImage_captions (r : Settled string) (s : AppState) :
  mode (handleEditImage r s) = mode s /\
  topText (handleEditImage r s) = topText s /\
  bottomText (handleEditImage r s) = bottomText s.
Proof.
  unfold handleEditImage.
  destruct (negb (has_image s) || negb (truthy (editPrompt s)));
    [ repeat split | ].
  destruct r; repeat split.
Qed.

(** X11.  With manual text set, the texts drawn after an edit, resolved or
    rejected, are the texts drawn before it, whatever the dimensions of the
    old and of the new image. *)
Theorem edit_keeps_manual_caption (measureText : Context2D -> string -> Q)
    (s : AppState) (r : Settled string) (img img' : Image) (c c' : Canvas) :
  topText s <> "" \/ bottomText s <> "" ->
  map run_txt (filled (painted
    (exec (onload measureText (handleEditImage r s) img') c')))
  = map run_txt (filled (painted (exec (onload measureText s img) c))).
Proof.
  intros Hmanual.
  destruct (onload_canvas measureText (handleEditImage r s) img' c')
    as (_ & _ & Hp').
  destruct (onload_canvas measureText s img c) as (_ & _ & Hp).
  rewrite Hp', Hp. simpl. rewrite !filled_paint_runs.
  destruct (handleEditImage_captions r s) as (Hm & Ht & Hb).
  assert (Hor : truthy (topText s) || truthy (bottomText s) = true).
  { apply orb_true_iff.
    destruct Hmanual as [H | H]; apply truthy_true in H; auto. }
  unfold textRuns. rewrite Hm, Ht, Hb, Hor.
  destruct (mode s); [ | reflexivity .. ].
  rewrite !manualRuns_texts, Ht, Hb. reflexivity.
Qed.

(** An edit that turns a 800 x 400 image into a 512 x 512 one under
    "hello" and "world". *)
Lemma edit_keeps_manual_caption_witness :
  let s := mkApp CAPTION (Some "data:image/png;base64,AAAA") false None []
                 "" "hello" "world" "add a cat" None in
  let img := {| img_src := "data:image/png;base64,AAAA";
                img_width := 800; img_height := 400 |} in
  let img' := {| img_src := "data:image/png;base64,BBBB";
                 img_width := 512; img_height := 512 |} in
  let c := mkCanvas 300 150 defaultContext [] in
  (topText s <> "" \/ bottomText s <> "") /\
  imageSrc (handleEditImage (Resolved "data:image/png;base64,BBBB") s)
  = Some "data:image/png;base64,BBBB" /\
  map run_txt (filled (painted
    (exec (onload (fixedWidth 30)
             (handleEditImage (Resolved "data:image/png;base64,BBBB") s) img')
          (exec (onload (fixedWidth 30) s img) c))))
  = ["HELLO"; "WORLD"].
Proof.
  intros s img img' c.
  assert (H : topText s <> "" \/ bottomText s <> "") by (left; discriminate).
  split; [ exact H | split; [ reflexivity | ] ].
  rewrite (edit_keeps_manual_caption (fixedWidth 30) s
             (Resolved "data:image/png;base64,BBBB") img img'
             c (exec (onload (fixedWidth 30) s img) c) H).
  reflexivity.
Defined.

(** X12.  On the surface of an image with non-negative dimensions every run is
    drawn with a font size between 0 and 60 and a line width between 0 and
    7, centred on the middle of the surface. *)
Theorem text_style_bounds (measureText : Context2D -> string -> Q)
    (s : AppState) (img : Image) (c : Canvas) :
  0 <= img_width img -> 0 <= img_height img ->
  let out := exec (onload measureText s img) c in
  Forall (fun r => exists fontSize,
              font (run_st r) = font_of fontSize /\
              0 <= fontSize <= 60 /\
              0 <= lineWidth (run_st r) <= 7 /\
              textAlign (run_st r) = AlignCenter /\
              run_x r = num_div (canvas_width out) 2)
         (filled (painted out)).
Proof.
  intros Hw Hh out.
  destruct (onload_canvas measureText s img c) as (Ew & Eh & Hp).
  fold out in Ew, Eh, Hp. rewrite Hp, Ew. simpl. rewrite filled_paint_runs.
  destruct (fit_bounds _ _ Hw Hh) as (B1 & _).
  set (width := fst (fit (img_width img) (img_height img))) in *.
  set (height := snd (fit (img_width img) (img_height img))).
  assert (Hfs : 0 <= width / 10 <= 60).
  { split; [ apply Z.div_pos; lia | ].
    assert (width / 10 < 61); [ apply Z.div_lt_upper_bound; lia | lia ]. }
  assert (Hlw : 0 <= width / 10 / 8 <= 7).
  { split; [ apply Z.div_pos; lia | ].
    assert (width / 10 / 8 < 8); [ apply Z.div_lt_upper_bound; lia | lia ]. }
  assert (Hx : Forall (fun r => run_x r = num_div width 2)
                      (textRuns measureText s width height)).
  { unfold textRuns. destruct (mode s); try constructor.
    destruct (truthy (topText s) || truthy (bottomText s)).
    - unfold manualRuns.
      destruct (truthy (topText s)), (truthy (bottomText s)); simpl;
        repeat constructor.
    - destruct (truthy (selectedCaption s)); [ | constructor ].
      unfold magicRuns. apply Forall_map. apply Forall_forall.
      intros li _. reflexivity. }
  pose proof (textRuns_styled measureText s width height) as Hst.
  rewrite Forall_forall in *. intros r Hr.
  destruct (Hst r Hr) as [baseline E]. exists (width / 10).
  rewrite E, (Hx r Hr), styled_lineWidth. unfold styled.
  cbn [font textAlign]. rewrite !Math_floor_div.
  repeat split; try reflexivity; lia.
Qed.

(** A magic caption on a surface of 600 x 300. *)
Lemma text_style_bounds_witness :
  let s := mkApp CAPTION (Some "data:image/png;base64,AAAA") false None []
                 "one does not simply walk into mordor" "" "" "" None in
  let img := {| img_src := "data:image/png;base64,AAAA";
                img_width := 800; img_height := 400 |} in
  let out := exec (onload (fixedWidth 30) s img)
                  (mkCanvas 300 150 defaultContext []) in
  0 <= img_width img /\ 0 <= img_height img /\
  List.length (filled (painted out)) = 3%nat /\
  Forall (fun r => lineWidth (run_st r) <= 7) (filled (painted out)).
Proof.
  intros s img out.
  assert (Hw : 0 <= img_width img) by (simpl; lia).
  assert (Hh : 0 <= img_height img) by (simpl; lia).
  pose proof (text_style_bounds (fixedWidth 30) s img
                (mkCanvas 300 150 defaultContext []) Hw Hh) as H.
  split; [ exact Hw | split; [ exact Hh | split; [ reflexivity | ] ] ].
  eapply Forall_impl; [ | exact H ].
  intros r (fontSize & _ & _ & Hl & _). lia.
Defined.

(* ================================================================== *)
(** ** More on the wrap loop *)
(* ================================================================== *)

Lemma joinWords_split (s : string) : joinWords (split " " s) = s ++ " ".
Proof.
  induction s as [ | c s IH]; simpl; [ reflexivity | ].
  destruct (Ascii.eqb_spec c " ") as [-> | Hc].
  - simpl. rewrite IH. reflexivity.
  - destruct (split " " s) as [ | w ws] eqn:E.
    + exfalso. exact (split_nonempty _ _ E).
    + simpl in *. rewrite IH. reflexivity.
Qed.

Lemma joinWords_app (g g' : list string) :
  joinWords (g ++ g') = joinWords g ++ joinWords g'.
Proof.
  induction g as [ | w g IH]; simpl; [ reflexivity | ].
  rewrite IH, !str_app_assoc. reflexivity.
Qed.

Lemma joinWords_concat (groups : list (list string)) :
  fold_right append "" (map joinWords groups) = joinWords (List.concat groups).
Proof.
  induction groups as [ | g groups IH]; simpl; [ reflexivity | ].
  rewrite IH, joinWords_app. reflexivity.
Qed.

Lemma concat_length_nonempty (groups : list (list string)) :
  Forall (fun g => g <> []) groups ->
  (List.length groups <= List.length (List.concat groups))%nat.
Proof.
  induction 1 as [ | g groups Hg _ IH]; simpl; [ lia | ].
  rewrite length_app. destruct g; [ contradiction | simpl; lia ].
Qed.

Lemma toUpperCase_app (a b : string) :
  toUpperCase (a ++ b) = toUpperCase a ++ toUpperCase b.
Proof. induction a as [ | c a IH]; simpl; [ | rewrite IH ]; reflexivity. Qed.

Lemma toUpperCase_join (lines : list string) :
  fold_right append "" (map toUpperCase lines)
  = toUpperCase (fold_right append "" lines).
Proof.
  induction lines as [ | l lines IH]; simpl; [ reflexivity | ].
  rewrite IH, toUpperCase_app. reflexivity.
Qed.

(** X13.  Wrapping loses nothing and adds one closing space: the lines, put
    together, are the caption followed by a space.  There is at least one
    line, at most one per word, and no line is empty.  On the surface, the
    texts of a magic caption put together are the caption and its closing
    space, upper-cased. *)
Theorem wrap_preserves_text (measureText : Context2D -> string -> Q)
    (k : Context2D) (width : Z) (caption : string) :
  let lines := wrapLines measureText k width caption in
  fold_right append "" lines = caption ++ " " /\
  (1 <= List.length lines <= List.length (split " " caption))%nat /\
  Forall (fun l => l <> "") lines /\
  (forall s img c,
      mode s = CAPTION -> topText s = "" -> bottomText s = "" ->
      selectedCaption s <> "" ->
      fold_right append ""
        (map run_txt (filled (painted (exec (onload measureText s img) c))))
      = toUpperCase (selectedCaption s ++ " ")).
Proof.
  assert (Hjoin : forall k' width' caption',
             fold_right append "" (wrapLines measureText k' width' caption')
             = caption' ++ " ").
  { intros k' width' caption'.
    destruct (wrapLines_groups measureText k' width' caption')
      as (groups & -> & Hc & _ & _).
    rewrite joinWords_concat, Hc. apply joinWords_split. }
  intros lines. split; [ apply Hjoin | ].
  destruct (wrapLines_groups measureText k width caption)
    as (groups & Hl & Hc & Hn & _).
  fold lines in Hl.
  split; [ split | split ].
  - pose proof (wrapLines_nonempty measureText k width caption) as H.
    fold lines in H. destruct lines; [ contradiction | simpl; lia ].
  - rewrite Hl, length_map, <- Hc. apply concat_length_nonempty. exact Hn.
  - rewrite Hl. apply Forall_map. eapply Forall_impl; [ | exact Hn ].
    intros g Hg. destruct g as [ | w g]; [ contradiction | ].
    simpl. destruct w; discriminate.
  - intros s img c Hm Ht Hb Hs.
    rewrite (magic_filled measureText s img c Hm Ht Hb Hs).
    unfold magicRuns. rewrite map_map. simpl.
    rewrite <- (map_map fst (fun l => toUpperCase l)), indexed_from_fst.
    rewrite toUpperCase_join, Hjoin. reflexivity.
Qed.

Lemma broken_extend_last (measureText : Context2D -> string -> Q)
    (k : Context2D) (width : Z) (gs : list (list string)) :
  forall (g : list string) (w : string),
    g <> [] ->
    broken_on_overflow measureText k width (gs ++ [g])%list ->
    broken_on_overflow measureText k width (gs ++ [g ++ [w]])%list.
Proof.
  induction gs as [ | g0 gs IH]; intros g w Hg H.
  - exact I.
  - destruct gs as [ | g1 gs].
    + simpl in *. destruct g as [ | v g]; [ contradiction | ].
      simpl. exact H.
    + change (broken_on_overflow measureText k width
                (g0 :: (g1 :: gs) ++ [g ++ [w]])%list).
      change (broken_on_overflow measureText k width
                (g0 :: (g1 :: gs) ++ [g])%list) in H.
      simpl in H. simpl. destruct g1 as [ | v g1]; [ tauto | ].
      destruct H as [H0 H]. split; [ exact H0 | ].
      apply (IH g w Hg). exact H.
Qed.

Lemma broken_push (measureText : Context2D -> string -> Q)
    (k : Context2D) (width : Z) (gs : list (list string)) :
  forall (g : list string) (w : string),
    (inject_Z (width - 40) < measureText k (joinWords g ++ w ++ " "))%Q ->
    broken_on_overflow measureText k width (gs ++ [g])%list ->
    broken_on_overflow measureText k width ((gs ++ [g]) ++ [[w]])%list.
Proof.
  induction gs as [ | g0 gs IH]; intros g w Hover H.
  - simpl. split; [ exact Hover | exact I ].
  - destruct gs as [ | g1 gs].
    + simpl in *. destruct g as [ | v g]; [ tauto | ].
      destruct H as [H0 _]. split; [ exact H0 | ].
      split; [ exact Hover | exact I ].
    + change (broken_on_overflow measureText k width
                (g0 :: ((g1 :: gs) ++ [g]) ++ [[w]])%list).
      change (broken_on_overflow measureText k width
                (g0 :: (g1 :: gs) ++ [g])%list) in H.
      simpl in H. simpl. destruct g1 as [ | v g1]; [ tauto | ].
      destruct H as [H0 H]. split; [ exact H0 | ].
      apply (IH g w Hover). exact H.
Qed.

Lemma wrapLoop_broken (measureText : Context2D -> string -> Q)
    (k : Context2D) (width : Z) (words : list string) :
  forall (n : nat) (cur : list string) (done : list (list string)),
    ((0 <? n)%nat = false -> cur = [] /\ done = []) ->
    ((0 <? n)%nat = true -> cur <> []) ->
    broken_on_overflow measureText k width (done ++ [cur])%list ->
    exists groups last,
      wrapLoop measureText k width words n (joinWords cur) (map joinWords done)
        = (joinWords last, map joinWords groups) /\
      List.concat (groups ++ [last])%list = (List.concat done ++ cur ++ words)%list /\
      broken_on_overflow measureText k width (groups ++ [last])%list.
Proof.
  induction words as [ | w words IH]; intros n cur done H0 Hpos Hbr.
  - exists done, cur. simpl. rewrite List.concat_app. simpl.
    rewrite !app_nil_r. repeat split; auto.
  - simpl.
    destruct (num_gt (measureText k (joinWords cur ++ w ++ " "))
                     (inject_Z (width - 40)) && (0 <? n)%nat) eqn:Ec.
    + apply andb_true_iff in Ec. destruct Ec as [Ew En].
      apply num_gt_true in Ew.
      destruct (IH (S n) [w] (done ++ [cur])%list)
        as (groups & last & E & Hc & Hb).
      * discriminate.
      * discriminate.
      * apply broken_push; assumption.
      * exists groups, last. rewrite map_app in E. simpl in E.
        split; [ exact E | ].
        split; [ rewrite Hc, List.concat_app; simpl;
                 rewrite app_nil_r, <- app_assoc; reflexivity | exact Hb ].
    + rewrite <- joinWords_snoc.
      destruct (IH (S n) (cur ++ [w])%list done)
        as (groups & last & E & Hc & Hb).
      * discriminate.
      * intros _. destruct cur; discriminate.
      * destruct (0 <? n)%nat eqn:En.
        -- apply broken_extend_last; [ apply Hpos; reflexivity | exact Hbr ].
        -- destruct (H0 eq_refl) as [-> ->]. exact I.
      * exists groups, last. split; [ exact E | ].
        split; [ rewrite Hc, <- !app_assoc; reflexivity | exact Hb ].
Qed.

(** X14.  Each line but the last was closed because the next word did not fit:
    the lines are the words of the caption in groups such that a group,
    extended by the first word of the next group, measures more than
    [width - 40]. *)
Theorem wrap_breaks_on_overflow (measureText : Context2D -> string -> Q)
    (k : Context2D) (width : Z) (caption : string) :
  exists groups : list (list string),
    wrapLines measureText k width caption = map joinWords groups /\
    List.concat groups = split " " caption /\
    broken_on_overflow measureText k width groups.
Proof.
  unfold wrapLines.
  assert (Hpos : (0 <? 0)%nat = true -> @nil string <> []) by discriminate.
  destruct (wrapLoop_broken measureText k width (split " " caption) 0 [] []
              (fun _ => conj eq_refl eq_refl) Hpos I)
    as (groups & last & E & Hc & Hb).
  simpl in E. rewrite E. simpl in Hc.
  exists (groups ++ [last])%list.
  split; [ rewrite map_map || rewrite map_app; reflexivity | ].
  split; [ exact Hc | exact Hb ].
Qed.

Lemma wrapLoop_fits (measureText : Context2D -> string -> Q)
    (k : Context2D) (width : Z) (full : string) (words : list string) :
  (forall a b, (measureText k a <= measureText k (a ++ b))%Q) ->
  (measureText k full <= inject_Z (width - 40))%Q ->
  forall (n : nat) (line : string) (lineArray : list string),
    line ++ joinWords words = full ->
    wrapLoop measureText k width words n line lineArray = (full, lineArray).
Proof.
  intros Hmono Hfull.
  induction words as [ | w words IH]; intros n line lineArray E; simpl in *.
  - rewrite <- E. destruct line; simpl; [ reflexivity | ].
    f_equal. f_equal.
    clear. induction line; simpl; [ reflexivity | now rewrite <- IHline at 1 ].
  - assert (Hfit : num_gt (measureText k (line ++ w ++ " "))
                          (inject_Z (width - 40)) = false).
    { apply num_gt_false.
      eapply Qle_trans; [ apply (Hmono _ (joinWords words)) | ].
      rewrite !str_app_assoc. simpl. rewrite E. exact Hfull. }
    rewrite Hfit. simpl. apply IH.
    rewrite !str_app_assoc. simpl. exact E.
Qed.

(** X15.  Where a text never measures less than one of its beginnings, a
    caption that fits, with its closing space, in [width - 40] is one line;
    and a caption of two words or more that does not fit, whatever the
    measurement, is more than one line. *)
Theorem wrap_single_line (measureText : Context2D -> string -> Q)
    (k : Context2D) (width : Z) (caption : string) :
  ((forall a b, (measureText k a <= measureText k (a ++ b))%Q) ->
   (measureText k (caption ++ " ") <= inject_Z (width - 40))%Q ->
   wrapLines measureText k width caption = [caption ++ " "]) /\
  ((1 < List.length (split " " caption))%nat ->
   (inject_Z (width - 40) < measureText k (caption ++ " "))%Q ->
   (1 < List.length (wrapLines measureText k width caption))%nat).
Proof.
  split.
  - intros Hmono Hfit. unfold wrapLines.
    rewrite (wrapLoop_fits measureText k width (caption ++ " ")
               (split " " caption) Hmono Hfit 0 "" []).
    + reflexivity.
    + simpl. apply joinWords_split.
  - intros Hwords Hover.
    destruct (wrapLines_groups measureText k width caption)
      as (groups & Hl & Hc & Hn & Hfit).
    rewrite Hl, length_map.
    destruct groups as [ | g [ | g' groups]]; simpl; try lia.
    + simpl in Hc. rewrite <- Hc in Hwords. simpl in Hwords. lia.
    + exfalso. simpl in Hc. rewrite app_nil_r in Hc. subst g.
      inversion Hfit as [ | ? ? [Hle | [w Hw]] _]; subst.
      * rewrite joinWords_split in Hle. exact (Qlt_not_le _ _ Hover Hle).
      * rewrite Hw in Hwords. simpl in Hwords. lia.
Qed.

(** "hello world" on a surface 600 wide is one line when a character
    measures 30; when a character measures 50, or when the measurement is not
    monotone and gives 700 to every text, it is two lines. *)
Lemma wrap_single_line_witness :
  (forall a b, (fixedWidth 30 defaultContext a
                <= fixedWidth 30 defaultContext (a ++ b))%Q) /\
  wrapLines (fixedWidth 30) defaultContext 600 "hello world" = ["hello world "] /\
  wrapLines (fixedWidth 50) defaultContext 600 "hello world" = ["hello "; "world "] /\
  (1 < List.length (wrapLines (fun _ _ => inject_Z 700) defaultContext 600
                              "hello world"))%nat.
Proof.
  assert (Hmono : forall a b, (fixedWidth 30 defaultContext a
                               <= fixedWidth 30 defaultContext (a ++ b))%Q).
  { intros a b. unfold fixedWidth. rewrite <- Zle_Qle, str_app_length. lia. }
  split; [ exact Hmono | ].
  split; [ | split; [ reflexivity | ] ].
  - apply (proj1 (wrap_single_line (fixedWidth 30) defaultContext 600
                    "hello world") Hmono).
    unfold fixedWidth. rewrite <- Zle_Qle. simpl. lia.
  - apply (proj2 (wrap_single_line (fun _ _ => inject_Z 700) defaultContext 600
                    "hello world")).
    + simpl. lia.
    + rewrite <- Zlt_Qlt. lia.
Defined.

Lemma split_length (sep : ascii) (s : string) :
  (List.length (split sep s) <= S (String.length s))%nat.
Proof.
  induction s as [ | c s IH]; simpl; [ lia | ].
  destruct (Ascii.eqb c sep); simpl; [ lia | ].
  destruct (split sep s); simpl in *; lia.
Qed.

Lemma wrapLines_length (measureText : Context2D -> string -> Q)
    (k : Context2D) (width : Z) (caption : string) :
  (List.length (wrapLines measureText k width caption)
   <= S (String.length caption))%nat.
Proof.
  destruct (wrapLines_groups measureText k width caption)
    as (groups & -> & Hc & Hn & _).
  rewrite length_map.
  pose proof (concat_length_nonempty groups Hn) as H.
  rewrite Hc in H. pose proof (split_length " " caption). lia.
Qed.

(** X16.  A magic caption of less than a million characters, on the surface
    of an image with non-negative dimensions, is drawn as one run per wrapped
    line, all anchored by their bottom.  The first line is anchored at
    [height - 20 - (n - 1) * fontSize] exactly.  The anchors are doubles, and
    line [j] is anchored within a millionth of
    [height - 20 - (n - 1) * fontSize + j * fontSize * 11/10]: each line is
    [fontSize * 1.1] below the one before it to within two millionths, and
    the last line is within a millionth of
    [height - 20 + (n - 1) * fontSize / 10]. *)
Theorem magic_caption_layout (measureText : Context2D -> string -> Q)
    (s : AppState) (img : Image) (c : Canvas) :
  mode s = CAPTION -> topText s = "" -> bottomText s = "" ->
  selectedCaption s <> "" ->
  Z.of_nat (String.length (selectedCaption s)) < 1000000 ->
  0 <= img_width img -> 0 <= img_height img ->
  let out := exec (onload measureText s img) c in
  let fontSize := canvas_width out / 10 in
  let runs := filled (painted out) in
  let n := List.length runs in
  let y0 := canvas_height out - 20 - (Z.of_nat n - 1) * fontSize in
  n = List.length (wrapLines measureText (styled fontSize BaselineTop)
                             (canvas_width out) (selectedCaption s)) /\
  Forall (fun r => textBaseline (run_st r) = BaselineBottom) runs /\
  (forall r, nth_error runs 0 = Some r -> (run_y r == inject_Z y0)%Q) /\
  (forall j r,
      nth_error runs j = Some r ->
      (- (1 # 1000000)
       <= run_y r - (inject_Z y0 + inject_Z (Z.of_nat j * fontSize) * (11 # 10))
       <= 1 # 1000000)%Q) /\
  (forall j r r',
      nth_error runs j = Some r -> nth_error runs (S j) = Some r' ->
      (- (2 # 1000000)
       <= run_y r' - run_y r - inject_Z fontSize * (11 # 10)
       <= 2 # 1000000)%Q) /\
  (forall r,
      nth_error runs (n - 1) = Some r ->
      (- (1 # 1000000)
       <= run_y r - (inject_Z (canvas_height out - 20)
                     + inject_Z ((Z.of_nat n - 1) * fontSize) * (1 # 10))
       <= 1 # 1000000)%Q).
Proof.
  intros Hm Ht Hb Hs Hlen Hw Hh out fontSize runs n y0.
  assert (Hn : n = List.length
                     (wrapLines measureText (styled fontSize BaselineTop)
                                (canvas_width out) (selectedCaption s))).
  { unfold n, runs, out.
    rewrite (magic_filled measureText s img c Hm Ht Hb Hs).
    unfold magicRuns. rewrite length_map, indexed_from_length.
    rewrite Math_floor_div. reflexivity. }
  assert (Hn' : Z.of_nat n <= 1000000).
  { rewrite Hn.
    pose proof (wrapLines_length measureText (styled fontSize BaselineTop)
                  (canvas_width out) (selectedCaption s)). lia. }
  destruct (onload_canvas measureText s img c) as (Ew & Eh & _).
  fold out in Ew, Eh.
  destruct (fit_bounds _ _ Hw Hh) as (Bw & Bh & _).
  rewrite <- Ew in Bw. rewrite <- Eh in Bh.
  assert (Hfs : 0 <= fontSize <= 60).
  { unfold fontSize. split; [ apply Z.div_pos; lia | ].
    assert (canvas_width out / 10 < 61); [ | lia ].
    apply Z.div_lt_upper_bound; lia. }
  assert (Hy : forall j r, nth_error runs j = Some r ->
                 run_y r = line_y y0 (Z.of_nat j) fontSize /\ (j < n)%nat).
  { intros j r Hr. split.
    - exact (proj2 (magic_caption_line_y measureText s img c Hm Ht Hb Hs j r Hr)).
    - assert (Hne : nth_error runs j <> None) by (rewrite Hr; discriminate).
      apply nth_error_Some in Hne. exact Hne. }
  assert (Hy0 : - 100000000 <= y0 <= 100000000) by (unfold y0; nia).
  assert (Hnear : forall j r,
             nth_error runs j = Some r ->
             (- (1 # 1000000)
              <= run_y r - (inject_Z y0
                            + inject_Z (Z.of_nat j * fontSize) * (11 # 10))
              <= 1 # 1000000)%Q).
  { intros j r Hr. destruct (Hy j r Hr) as [-> Hj].
    apply line_y_near; [ exact Hy0 | nia ]. }
  split; [ exact Hn | ].
  split; [ | split; [ | split; [ exact Hnear | split ] ] ].
  - apply Forall_forall. intros r Hr.
    apply In_nth_error in Hr. destruct Hr as [j Hj].
    exact (proj1 (magic_caption_line_y measureText s img c Hm Ht Hb Hs j r Hj)).
  - intros r Hr. destruct (Hy 0%nat r Hr) as [-> _].
    apply line_y_first. lia.
  - intros j r r' Hr Hr'.
    pose proof (Hnear j r Hr) as H1. pose proof (Hnear (S j) r' Hr') as H2.
    rewrite Nat2Z.inj_succ in H2. unfold Z.succ in H2.
    rewrite Z.mul_add_distr_r, Z.mul_1_l, inject_Z_plus in H2. lra.
  - intros r Hr. pose proof (Hnear (n - 1)%nat r Hr) as H1.
    destruct (Hy _ _ Hr) as [_ Hj].
    replace (Z.of_nat (n - 1)) with (Z.of_nat n - 1) in H1 by lia.
    unfold y0 in H1.
    rewrite inject_Z_sub in H1.
    set (a := inject_Z (canvas_height out - 20)) in *.
    set (b := inject_Z ((Z.of_nat n - 1) * fontSize)) in *.
    lra.
Qed.

(** The three lines of 460, 526 and 592 on a surface of 600 x 600. *)
Lemma magic_caption_layout_witness :
  let s := mkApp CAPTION (Some "data:image/png;base64,AAAA") false None []
                 "one does not simply walk into mordor" "" "" "" None in
  let img := {| img_src := "data:image/png;base64,AAAA";
                img_width := 600; img_height := 600 |} in
  let out := exec (onload (fixedWidth 30) s img)
                  (mkCanvas 300 150 defaultContext []) in
  mode s = CAPTION /\ topText s = "" /\ bottomText s = "" /\
  selectedCaption s <> "" /\
  Z.of_nat (String.length (selectedCaption s)) < 1000000 /\
  0 <= img_width img /\ 0 <= img_height img /\
  List.length (filled (painted out)) = 3%nat /\
  Forall (fun r => textBaseline (run_st r) = BaselineBottom)
         (filled (painted out)).
Proof.
  intros s img out.
  assert (Hs : selectedCaption s <> "") by discriminate.
  assert (Hl : Z.of_nat (String.length (selectedCaption s)) < 1000000)
    by (simpl; lia).
  assert (Hw : 0 <= img_width img) by (simpl; lia).
  assert (Hh : 0 <= img_height img) by (simpl; lia).
  destruct (magic_caption_layout (fixedWidth 30) s img
              (mkCanvas 300 150 defaultContext [])
              eq_refl eq_refl eq_refl Hs Hl Hw Hh) as (_ & Hb & _).
  repeat (split; [ first [ reflexivity | assumption ] | ]).
  exact Hb.
Defined.
